(** * FloatChat: the chat-session controller of [src/context/Context.jsx]

    A shallow embedding of the React context provider [ContextProvider]
    and of the send controls of [Main.jsx].  Every [useState] cell and
    every [useRef] cell of the component is a field of [State]; the
    pending [setTimeout] callbacks and the pending [fetch] calls are
    kept in the state together with the values their closures captured
    when they were created, so that late callbacks can be run exactly
    as the JavaScript event loop would run them.

    A handler sees the values of the latest render, which is the state
    at the time of the event; the [set...] calls of one handler are
    applied in order, and an updater function gets the state that the
    earlier calls left.  A callback created by [onSent] keeps the
    [isStopped] and the [currentChatIndex] of the render in which
    [onSent] was called. *)

From Stdlib Require Import String Ascii ZArith.
From stdpp Require Import base list strings.

(** ** JavaScript string primitives

    A string is a sequence of code units; the model covers code units
    below 256, one [ascii] each. *)
Module JS.

(** [WhiteSpace] and [LineTerminator] code units stripped by
    [String.prototype.trim]: TAB, LF, VT, FF, CR, SP and NBSP. *)
Definition isWhiteSpace (c : ascii) : bool :=
  let n := nat_of_ascii c in
  ((9 <=? n) && (n <=? 13)) || (n =? 32) || (n =? 160).

Fixpoint trimStart (s : string) : string :=
  match s with
  | EmptyString => EmptyString
  | String c s' => if isWhiteSpace c then trimStart s' else s
  end.

Fixpoint trimEnd (s : string) : string :=
  match s with
  | EmptyString => EmptyString
  | String c s' =>
      match trimEnd s' with
      | EmptyString => if isWhiteSpace c then EmptyString else String c EmptyString
      | r => String c r
      end
  end.

Definition trim (s : string) : string := trimEnd (trimStart s).

(** Truthiness of a string value: only the empty string is falsy. *)
Definition truthy (s : string) : bool :=
  match s with EmptyString => false | _ => true end.

(** [v || null] for a value that is a string or [null]. *)
Definition orNull (v : option string) : option string :=
  match v with
  | Some s => if truthy s then Some s else None
  | None => None
  end.

(** [s.split(" ")]: the pieces between single spaces; never empty. *)
Fixpoint split (s : string) : list string :=
  match s with
  | EmptyString => [EmptyString]
  | String c s' =>
      if Ascii.eqb c " "%char then EmptyString :: split s'
      else match split s' with
           | w :: ws => String c w :: ws
           | [] => [String c EmptyString]
           end
  end.

(** [s.substring(0, n)]. *)
Definition substring0 (n : nat) (s : string) : string := String.substring 0 n s.

End JS.

(** ** Data model *)

(** A message object: [{question, answer}] or [{question, graph_path}];
    a key that the object literal does not mention is [None]. *)
Record Message := {
  question : string;
  answer : option string;
  graph_path : option string
}.

Record MemoryEntry := {
  mem_question : string;
  mem_answer : string
}.

(** A chat object, always built with these four keys. *)
Record Chat := {
  title : string;
  messages : list Message;
  memory : list MemoryEntry;
  isMemoryFull : bool
}.

Definition memoryLimit : nat := 10.

(** What a pending timer will run: the function of [delayPara] or the
    finalize function of [onSent], each with the values of the render
    in which [onSent] was called. *)
Inductive TimerCallback :=
| Reveal (isStopped_c : bool) (nextWord : string)
| Finalize (isStopped_c : bool) (currentChatIndex_c : option nat)
           (userQuery botResponse : string).

Record Timer := {
  timer_id : nat;
  timer_due : nat;
  timer_callback : TimerCallback
}.

Record RequestBody := {
  query : string;
  body_isThinkingMode : bool;
  chatMemory : list MemoryEntry
}.

(** A [fetch] that has not settled: what was sent, and what the
    continuation of [onSent] after the [await] still refers to. *)
Record Request := {
  request_id : nat;
  request_body : RequestBody;
  request_isStopped : bool;
  request_currentChatIndex : option nat
}.

Record State := {
  input : string;
  recentPrompt : string;
  prevPrompts : list string;
  showResult : bool;
  loading : bool;
  resultData : string;
  conversationHistory : list Message;
  chats : list Chat;
  currentChatIndex : option nat;
  isStopped : bool;
  isThinkingMode : bool;
  currentChatIsFull : bool;
  (* useRef cells *)
  abortControllerRef : option nat;
  timeoutRefs : list nat;
  (* the event loop *)
  timers : list Timer;
  requests : list Request;
  now : nat;
  nextId : nat
}.

Definition setInput (v : string) (s : State) : State :=
  Build_State v (recentPrompt s) (prevPrompts s) (showResult s) (loading s) (resultData s) (conversationHistory s) (chats s) (currentChatIndex s) (isStopped s) (isThinkingMode s) (currentChatIsFull s) (abortControllerRef s) (timeoutRefs s) (timers s) (requests s) (now s) (nextId s).
Definition setRecentPrompt (v : string) (s : State) : State :=
  Build_State (input s) v (prevPrompts s) (showResult s) (loading s) (resultData s) (conversationHistory s) (chats s) (currentChatIndex s) (isStopped s) (isThinkingMode s) (currentChatIsFull s) (abortControllerRef s) (timeoutRefs s) (timers s) (requests s) (now s) (nextId s).
Definition setPrevPrompts (v : list string) (s : State) : State :=
  Build_State (input s) (recentPrompt s) v (showResult s) (loading s) (resultData s) (conversationHistory s) (chats s) (currentChatIndex s) (isStopped s) (isThinkingMode s) (currentChatIsFull s) (abortControllerRef s) (timeoutRefs s) (timers s) (requests s) (now s) (nextId s).
Definition setShowResult (v : bool) (s : State) : State :=
  Build_State (input s) (recentPrompt s) (prevPrompts s) v (loading s) (resultData s) (conversationHistory s) (chats s) (currentChatIndex s) (isStopped s) (isThinkingMode s) (currentChatIsFull s) (abortControllerRef s) (timeoutRefs s) (timers s) (requests s) (now s) (nextId s).
Definition setLoading (v : bool) (s : State) : State :=
  Build_State (input s) (recentPrompt s) (prevPrompts s) (showResult s) v (resultData s) (conversationHistory s) (chats s) (currentChatIndex s) (isStopped s) (isThinkingMode s) (currentChatIsFull s) (abortControllerRef s) (timeoutRefs s) (timers s) (requests s) (now s) (nextId s).
Definition setResultData (v : string) (s : State) : State :=
  Build_State (input s) (recentPrompt s) (prevPrompts s) (showResult s) (loading s) v (conversationHistory s) (chats s) (currentChatIndex s) (isStopped s) (isThinkingMode s) (currentChatIsFull s) (abortControllerRef s) (timeoutRefs s) (timers s) (requests s) (now s) (nextId s).
Definition setConversationHistory (v : list Message) (s : State) : State :=
  Build_State (input s) (recentPrompt s) (prevPrompts s) (showResult s) (loading s) (resultData s) v (chats s) (currentChatIndex s) (isStopped s) (isThinkingMode s) (currentChatIsFull s) (abortControllerRef s) (timeoutRefs s) (timers s) (requests s) (now s) (nextId s).
Definition setChats (v : list Chat) (s : State) : State :=
  Build_State (input s) (recentPrompt s) (prevPrompts s) (showResult s) (loading s) (resultData s) (conversationHistory s) v (currentChatIndex s) (isStopped s) (isThinkingMode s) (currentChatIsFull s) (abortControllerRef s) (timeoutRefs s) (timers s) (requests s) (now s) (nextId s).
Definition setCurrentChatIndex (v : option nat) (s : State) : State :=
  Build_State (input s) (recentPrompt s) (prevPrompts s) (showResult s) (loading s) (resultData s) (conversationHistory s) (chats s) v (isStopped s) (isThinkingMode s) (currentChatIsFull s) (abortControllerRef s) (timeoutRefs s) (timers s) (requests s) (now s) (nextId s).
Definition setIsStopped (v : bool) (s : State) : State :=
  Build_State (input s) (recentPrompt s) (prevPrompts s) (showResult s) (loading s) (resultData s) (conversationHistory s) (chats s) (currentChatIndex s) v (isThinkingMode s) (currentChatIsFull s) (abortControllerRef s) (timeoutRefs s) (timers s) (requests s) (now s) (nextId s).
Definition setIsThinkingMode (v : bool) (s : State) : State :=
  Build_State (input s) (recentPrompt s) (prevPrompts s) (showResult s) (loading s) (resultData s) (conversationHistory s) (chats s) (currentChatIndex s) (isStopped s) v (currentChatIsFull s) (abortControllerRef s) (timeoutRefs s) (timers s) (requests s) (now s) (nextId s).
Definition setCurrentChatIsFull (v : bool) (s : State) : State :=
  Build_State (input s) (recentPrompt s) (prevPrompts s) (showResult s) (loading s) (resultData s) (conversationHistory s) (chats s) (currentChatIndex s) (isStopped s) (isThinkingMode s) v (abortControllerRef s) (timeoutRefs s) (timers s) (requests s) (now s) (nextId s).
Definition set_abortControllerRef (v : option nat) (s : State) : State :=
  Build_State (input s) (recentPrompt s) (prevPrompts s) (showResult s) (loading s) (resultData s) (conversationHistory s) (chats s) (currentChatIndex s) (isStopped s) (isThinkingMode s) (currentChatIsFull s) v (timeoutRefs s) (timers s) (requests s) (now s) (nextId s).
Definition set_timeoutRefs (v : list nat) (s : State) : State :=
  Build_State (input s) (recentPrompt s) (prevPrompts s) (showResult s) (loading s) (resultData s) (conversationHistory s) (chats s) (currentChatIndex s) (isStopped s) (isThinkingMode s) (currentChatIsFull s) (abortControllerRef s) v (timers s) (requests s) (now s) (nextId s).
Definition set_timers (v : list Timer) (s : State) : State :=
  Build_State (input s) (recentPrompt s) (prevPrompts s) (showResult s) (loading s) (resultData s) (conversationHistory s) (chats s) (currentChatIndex s) (isStopped s) (isThinkingMode s) (currentChatIsFull s) (abortControllerRef s) (timeoutRefs s) v (requests s) (now s) (nextId s).
Definition set_requests (v : list Request) (s : State) : State :=
  Build_State (input s) (recentPrompt s) (prevPrompts s) (showResult s) (loading s) (resultData s) (conversationHistory s) (chats s) (currentChatIndex s) (isStopped s) (isThinkingMode s) (currentChatIsFull s) (abortControllerRef s) (timeoutRefs s) (timers s) v (now s) (nextId s).
Definition set_now (v : nat) (s : State) : State :=
  Build_State (input s) (recentPrompt s) (prevPrompts s) (showResult s) (loading s) (resultData s) (conversationHistory s) (chats s) (currentChatIndex s) (isStopped s) (isThinkingMode s) (currentChatIsFull s) (abortControllerRef s) (timeoutRefs s) (timers s) (requests s) v (nextId s).
Definition set_nextId (v : nat) (s : State) : State :=
  Build_State (input s) (recentPrompt s) (prevPrompts s) (showResult s) (loading s) (resultData s) (conversationHistory s) (chats s) (currentChatIndex s) (isStopped s) (isThinkingMode s) (currentChatIsFull s) (abortControllerRef s) (timeoutRefs s) (timers s) (requests s) (now s) v.

(** ** Outcomes

    Event handlers run to completion.  The only exception that escapes
    them is a [TypeError] raised inside a [setChats] updater, which
    React runs while rendering: nothing catches it. *)
Inductive Outcome :=
| Done (s : State)
| Threw.

Definition bindO (o : Outcome) (k : State -> Outcome) : Outcome :=
  match o with
  | Done s => k s
  | Threw => Threw
  end.

(** ** The event loop: timers and requests *)

(** [setTimeout(callback, delay)] returns the new timer's id. *)
Definition setTimeout (callback : TimerCallback) (delay : nat) (s : State) : nat * State :=
  let id := nextId s in
  let t := {| timer_id := id; timer_due := now s + delay; timer_callback := callback |} in
  (id, set_nextId (S id) (set_timers (timers s ++ [t]) s)).

(** [timeoutRefs.current.forEach(timeoutId => clearTimeout(timeoutId));
    timeoutRefs.current = [];] *)
Definition clearTimeouts (s : State) : State :=
  set_timeoutRefs []
    (set_timers (filter (fun t => timer_id t ∉ timeoutRefs s) (timers s)) s).

(** [if (abortControllerRef.current) abortControllerRef.current.abort();]
    The [fetch] that was given this controller's signal rejects with an
    [AbortError]; the [catch] block of its [onSent] then only logs, so
    the request leaves the pending set and nothing else changes. *)
Definition abortCurrent (s : State) : State :=
  match abortControllerRef s with
  | Some id => set_requests (filter (fun r => request_id r ≠ id) (requests s)) s
  | None => s
  end.

(** ** Context.jsx *)

Definition apology : string :=
  "Sorry, I'm having trouble connecting to my backend."%string.

Definition withMessages (c : Chat) (ms : list Message) : Chat :=
  {| title := title c; messages := ms; memory := memory c; isMemoryFull := isMemoryFull c |}.

Definition withMemory (c : Chat) (m : list MemoryEntry) : Chat :=
  {| title := title c; messages := messages c; memory := m; isMemoryFull := isMemoryFull c |}.

Definition withIsMemoryFull (c : Chat) (b : bool) : Chat :=
  {| title := title c; messages := messages c; memory := memory c; isMemoryFull := b |}.

(** [nextChats[currentChatIndex]] is [undefined] for [null] and for an
    index past the end. *)
Definition chatAt (cs : list Chat) (index : option nat) : option Chat :=
  match index with
  | Some i => cs !! i
  | None => None
  end.

Definition delayPara (isStopped_c : bool) (index : nat) (nextWord : string) (s : State) : State :=
  let '(timeoutId, s1) := setTimeout (Reveal isStopped_c nextWord) (75 * index) s in
  set_timeoutRefs (timeoutRefs s1 ++ [timeoutId]) s1.

(** The updater passed to [setChats] in [stopGeneration].  Spreading
    [undefined] gives [{}], whose [messages] cannot be spread. *)
Definition stopUpdater (currentChatIndex_c : option nat) (newMessage : Message)
    (s : State) : Outcome :=
  match currentChatIndex_c, chatAt (chats s) currentChatIndex_c with
  | Some i, Some chat =>
      let updatedChat := withMessages chat (messages chat ++ [newMessage]) in
      Done (setChats (<[i := updatedChat]> (chats s)) s)
  | _, _ => Threw
  end.

Definition stopGeneration (s : State) : Outcome :=
  let s1 := setIsStopped true s in
  let s2 := setLoading false s1 in
  let s3 := clearTimeouts s2 in
  let s4 := abortCurrent s3 in
  bindO
    (if JS.truthy (JS.trim (resultData s)) then
       let newMessage :=
         {| question := recentPrompt s; answer := Some (resultData s); graph_path := None |} in
       let s5 := setConversationHistory (conversationHistory s4 ++ [newMessage]) s4 in
       stopUpdater (currentChatIndex s) newMessage s5
     else Done s4)
    (fun s6 =>
       let s7 := setResultData EmptyString s6 in
       let s8 := setIsStopped false s7 in
       Done (setInput (recentPrompt s) s8)).

Definition newChat (s : State) : State :=
  let s1 := setLoading false s in
  let s2 := setShowResult false s1 in
  let s3 := setConversationHistory [] s2 in
  let s4 := setRecentPrompt EmptyString s3 in
  let s5 := setResultData EmptyString s4 in
  let s6 := setCurrentChatIndex None s5 in
  let s7 := setCurrentChatIsFull false s6 in
  setIsThinkingMode false s7.

Definition toggleThinkingMode (s : State) : State :=
  setIsThinkingMode (negb (isThinkingMode s)) s.

(** After the guard [index] is in range, so the [None] case of the
    lookup does not occur. *)
Definition openChat (index : Z) (s : State) : Outcome :=
  if ((index <? 0) || (Z.of_nat (length (chats s)) <=? index))%Z then Done s
  else
    match chats s !! Z.to_nat index with
    | Some chat =>
        let s1 := setCurrentChatIndex (Some (Z.to_nat index)) s in
        let s2 := setConversationHistory (messages chat) s1 in
        let s3 := setShowResult true s2 in
        let s4 := setLoading false s3 in
        let s5 := setRecentPrompt EmptyString s4 in
        let s6 := setResultData EmptyString s5 in
        Done (setCurrentChatIsFull (isMemoryFull chat) s6)
    | None => Threw
    end.

(** The [catch] block of [onSent] for an error that is not an
    [AbortError]. *)
Definition catchBlock (userQuery : string) (s : State) : State :=
  let userMessage :=
    {| question := userQuery; answer := Some apology; graph_path := None |} in
  let s1 := setConversationHistory (conversationHistory s ++ [userMessage]) s in
  let s2 := setLoading false s1 in
  let s3 := setResultData EmptyString s2 in
  setInput EmptyString s3.

(** [prompt !== undefined ? prompt : input]; [prompt = None] is a call
    without argument. *)
Definition userQueryOf (prompt : option string) (s : State) : string :=
  match prompt with
  | Some p => p
  | None => input s
  end.

(** [onSent] up to its first [await]: the guard, the resets and the
    request. *)
Definition onSent (prompt : option string) (s : State) : State :=
  if currentChatIsFull s then s
  else
    let s1 := setResultData EmptyString s in
    let s2 := setLoading true s1 in
    let s3 := setShowResult true s2 in
    let s4 := setIsStopped false s3 in
    let s5 := clearTimeouts s4 in
    let userQuery := userQueryOf prompt s in
    let s6 := setRecentPrompt userQuery s5 in
    (* try *)
    let id := nextId s6 in
    let s7 := set_abortControllerRef (Some id) (set_nextId (S id) s6) in
    let currentChatMemory :=
      match currentChatIndex s with
      | Some i => option_map memory (chats s !! i)
      | None => Some []
      end in
    match currentChatMemory with
    | Some currentChatMemory =>
        let requestBody :=
          {| query := userQuery;
             body_isThinkingMode := isThinkingMode s;
             chatMemory := currentChatMemory |} in
        let r :=
          {| request_id := id;
             request_body := requestBody;
             request_isStopped := isStopped s;
             request_currentChatIndex := currentChatIndex s |} in
        set_requests (requests s7 ++ [r]) s7
    | None => catchBlock userQuery s7
    end.

(** The loop over [newResponseArray], from index [i]. *)
Fixpoint delayParaLoop (isStopped_c : bool) (i : nat) (words : list string) (s : State) : State :=
  match words with
  | [] => s
  | nextWord :: rest =>
      delayParaLoop isStopped_c (S i) rest (delayPara isStopped_c i (nextWord +:+ " ") s)
  end.

(** The updater passed to [setChats] in the chart branch. *)
Definition graphUpdater (currentChatIndex_c : option nat) (userQuery : string)
    (newMessage : Message) (s : State) : Outcome :=
  let prevChats := chats s in
  match currentChatIndex_c with
  | None =>
      let newChat :=
        {| title := JS.substring0 20 userQuery;
           messages := [newMessage];
           memory := [];
           isMemoryFull := false |} in
      let nextChats := prevChats ++ [newChat] in
      let s1 := setPrevPrompts (prevPrompts s ++ [JS.substring0 20 userQuery]) s in
      let s2 := setCurrentChatIndex (Some (length nextChats - 1)) s1 in
      Done (setChats nextChats s2)
  | Some i =>
      match prevChats !! i with
      | Some chat =>
          let updatedChat := withMessages chat (messages chat ++ [newMessage]) in
          Done (setChats (<[i := updatedChat]> prevChats) s)
      | None => Threw
      end
  end.

(** The updater passed to [setChats] by the finalize function.  In the
    new-chat case [newChat] is marked full after it was pushed: it is
    the same object, so the pushed chat is the marked one. *)
Definition finalizeUpdater (currentChatIndex_c : option nat) (userQuery botResponse : string)
    (newMessage : Message) (s : State) : Outcome :=
  let prevChats := chats s in
  let entry := {| mem_question := userQuery; mem_answer := botResponse |} in
  match currentChatIndex_c with
  | None =>
      let newChat :=
        {| title := JS.substring0 20 userQuery;
           messages := [newMessage];
           memory := [entry];
           isMemoryFull := false |} in
      let s1 := setPrevPrompts (prevPrompts s ++ [JS.substring0 20 userQuery]) s in
      let s2 := setCurrentChatIndex (Some (length (prevChats ++ [newChat]) - 1)) s1 in
      if memoryLimit <=? length (memory newChat) then
        let s3 := setCurrentChatIsFull true s2 in
        Done (setChats (prevChats ++ [withIsMemoryFull newChat true]) s3)
      else Done (setChats (prevChats ++ [newChat]) s2)
  | Some i =>
      match prevChats !! i with
      | Some chat =>
          let updatedChat := withMessages chat (messages chat ++ [newMessage]) in
          let updatedChat := withMemory updatedChat (memory updatedChat ++ [entry]) in
          if memoryLimit <=? length (memory updatedChat) then
            let s1 := setCurrentChatIsFull true s in
            Done (setChats (<[i := withIsMemoryFull updatedChat true]> prevChats) s1)
          else Done (setChats (<[i := updatedChat]> prevChats) s)
      | None => Threw
      end
  end.

(** The chart branch of [onSent]. *)
Definition commitGraph (currentChatIndex_c : option nat) (userQuery graphPath : string)
    (s : State) : Outcome :=
  let newMessage :=
    {| question := userQuery; answer := None; graph_path := Some graphPath |} in
  let s1 := setConversationHistory (conversationHistory s ++ [newMessage]) s in
  bindO (graphUpdater currentChatIndex_c userQuery newMessage s1)
    (fun s2 =>
       let s3 := setLoading false s2 in
       let s4 := setResultData EmptyString s3 in
       Done (setInput EmptyString s4)).

(** The function given to the finalize [setTimeout]. *)
Definition finalize (isStopped_c : bool) (currentChatIndex_c : option nat)
    (userQuery botResponse : string) (s : State) : Outcome :=
  if isStopped_c then Done s
  else
    let newMessage :=
      {| question := userQuery; answer := Some botResponse; graph_path := None |} in
    let s1 := setConversationHistory (conversationHistory s ++ [newMessage]) s in
    bindO (finalizeUpdater currentChatIndex_c userQuery botResponse newMessage s1)
      (fun s2 =>
         let s3 := setLoading false s2 in
         let s4 := setResultData EmptyString s3 in
         Done (setInput EmptyString s4)).

(** The text branch of [onSent]: the word timers and the finalize
    timer. *)
Definition playback (isStopped_c : bool) (currentChatIndex_c : option nat)
    (userQuery botResponse : string) (s : State) : State :=
  let newResponseArray := JS.split botResponse in
  let s1 := delayParaLoop isStopped_c 0 newResponseArray s in
  let totalDurationMs := 75 * length newResponseArray + 100 in
  let '(finalizeTimeout, s2) :=
    setTimeout (Finalize isStopped_c currentChatIndex_c userQuery botResponse)
      totalDurationMs s1 in
  set_timeoutRefs (timeoutRefs s2 ++ [finalizeTimeout]) s2.

(** How a [fetch] settles: it rejects (no connection), or it resolves
    with a response of which [onSent] reads [ok] and, for a JSON body
    following the service's contract, [message] and [graph_path]. *)
Inductive FetchOutcome :=
| Rejected
| Response (ok : bool) (message graph_path : option string).

(** [onSent] after the [await]: the rest of the [try] block and the
    [catch] block.  A [null] [botResponse] makes [split] raise a
    [TypeError], which the [catch] block handles like any failure. *)
Definition resume (r : Request) (o : FetchOutcome) (s : State) : Outcome :=
  let userQuery := query (request_body r) in
  match o with
  | Rejected => Done (catchBlock userQuery s)
  | Response false _ _ => Done (catchBlock userQuery s)
  | Response true message graph_path =>
      let botResponse := JS.orNull message in
      let graphPath := JS.orNull graph_path in
      match graphPath with
      | Some graphPath =>
          commitGraph (request_currentChatIndex r) userQuery graphPath s
      | None =>
          match botResponse with
          | Some botResponse =>
              Done (playback (request_isStopped r) (request_currentChatIndex r)
                      userQuery botResponse s)
          | None => Done (catchBlock userQuery s)
          end
      end
  end.

Definition fetchSettles (id : nat) (o : FetchOutcome) (s : State) : Outcome :=
  match List.find (fun r => request_id r =? id) (requests s) with
  | Some r => resume r o (set_requests (filter (fun r => request_id r ≠ id) (requests s)) s)
  | None => Done s
  end.

Definition runCallback (callback : TimerCallback) (s : State) : Outcome :=
  match callback with
  | Reveal isStopped_c nextWord =>
      if isStopped_c then Done s
      else Done (setResultData (resultData s +:+ nextWord) s)
  | Finalize isStopped_c currentChatIndex_c userQuery botResponse =>
      finalize isStopped_c currentChatIndex_c userQuery botResponse s
  end.

Fixpoint runCallbacks (ts : list Timer) (s : State) : Outcome :=
  match ts with
  | [] => Done s
  | t :: rest => bindO (runCallback (timer_callback t) s) (runCallbacks rest)
  end.

(** Timers fire by due time, and in creation order when due together. *)
Fixpoint insertByDue (t : Timer) (ts : list Timer) : list Timer :=
  match ts with
  | [] => [t]
  | u :: rest =>
      if timer_due u <? timer_due t then u :: insertByDue t rest else t :: ts
  end.

Definition fireOrder (ts : list Timer) : list Timer := foldr insertByDue [] ts.

(** [d] milliseconds pass: every timer due by then fires. *)
Definition sleep (d : nat) (s : State) : Outcome :=
  let t := now s + d in
  let due := filter (fun x => timer_due x ≤ t) (timers s) in
  let later := filter (fun x => ¬ timer_due x ≤ t) (timers s) in
  runCallbacks (fireOrder due) (set_now t (set_timers later s)).

(** ** Main.jsx: the send controls *)

(** [onSent(); setInput('')].  The flag [isPromptSent] and the timer
    that restyles the search box do not touch the context. *)
Definition handleSend (s : State) : State :=
  setInput EmptyString (onSent None s).

Definition handleKeyPress (key : string) (s : State) : State :=
  if String.eqb key "Enter" && JS.truthy (JS.trim (input s)) then handleSend s else s.

(** [disabled={loading || currentChatIsFull}] on the input box. *)
Definition inputDisabled (s : State) : bool := loading s || currentChatIsFull s.

(** The send icon is rendered when not loading, not full, and [input]
    is truthy. *)
Definition sendIconShown (s : State) : bool :=
  negb (loading s) && negb (currentChatIsFull s) && JS.truthy (input s).

(** ** Runs *)

Definition init : State :=
  {| input := EmptyString; recentPrompt := EmptyString; prevPrompts := [];
     showResult := false; loading := false; resultData := EmptyString;
     conversationHistory := []; chats := []; currentChatIndex := None;
     isStopped := false; isThinkingMode := false; currentChatIsFull := false;
     abortControllerRef := None; timeoutRefs := [];
     timers := []; requests := []; now := 0; nextId := 0 |}.

Inductive Event :=
| SetInput (v : string)
| OnSent (prompt : option string)
| HandleSend
| HandleKeyPress (key : string)
| StopGeneration
| NewChat
| OpenChat (index : Z)
| ToggleThinkingMode
| FetchSettles (id : nat) (o : FetchOutcome)
| Sleep (d : nat).

Definition step (e : Event) (s : State) : Outcome :=
  match e with
  | SetInput v => Done (setInput v s)
  | OnSent prompt => Done (onSent prompt s)
  | HandleSend => Done (handleSend s)
  | HandleKeyPress key => Done (handleKeyPress key s)
  | StopGeneration => stopGeneration s
  | NewChat => Done (newChat s)
  | OpenChat index => openChat index s
  | ToggleThinkingMode => Done (toggleThinkingMode s)
  | FetchSettles id o => fetchSettles id o s
  | Sleep d => sleep d s
  end.

Fixpoint run (es : list Event) (s : State) : Outcome :=
  match es with
  | [] => Done s
  | e :: rest => bindO (step e s) (run rest)
  end.

(** What the rendered page lets a user do, and what the event loop can
    do, in state [s]. *)
Definition uiEnabled (e : Event) (s : State) : bool :=
  match e with
  | SetInput _ => negb (inputDisabled s)
  | OnSent _ => false
  | HandleSend => sendIconShown s
  | HandleKeyPress _ => negb (inputDisabled s)
  | StopGeneration => loading s
  | NewChat => true
  | OpenChat index => ((0 <=? index) && (index <? Z.of_nat (length (prevPrompts s))))%Z
  | ToggleThinkingMode => true
  | FetchSettles id _ => existsb (fun r => request_id r =? id) (requests s)
  | Sleep _ => true
  end.

(** A run in which every event was enabled when it happened. *)
Fixpoint runUI (es : list Event) (s : State) : option Outcome :=
  match es with
  | [] => Some (Done s)
  | e :: rest =>
      if uiEnabled e s then
        match step e s with
        | Done s' => runUI rest s'
        | Threw => Some Threw
        end
      else None
  end.

Definition reachable (s : State) : Prop := exists es, run es init = Done s.

(** * Properties *)

(** ** Invariants of reachable states *)

(** The session pointed to by [currentChatIndex], if any. *)
Definition activeChat (s : State) : option Chat := chatAt (chats s) (currentChatIndex s).

(** A finalized message has exactly one of [answer] and [graph_path]. *)
Definition exactlyOne (m : Message) : bool :=
  xorb (bool_decide (is_Some (answer m))) (bool_decide (is_Some (graph_path m))).

(** The flag that guards [onSent] covers the active session's own flag. *)
Definition fullSync (cs : list Chat) (index : option nat) (flag : bool) : Prop :=
  forall chat, chatAt cs index = Some chat -> isMemoryFull chat = true -> flag = true.

Definition indexValid (cs : list Chat) (index : option nat) : Prop :=
  forall i, index = Some i -> i < length cs.

Record Inv (s : State) : Prop := {
  inv_sync : fullSync (chats s) (currentChatIndex s) (currentChatIsFull s);
  inv_index : indexValid (chats s) (currentChatIndex s);
  inv_not_stopped : isStopped s = false;
  inv_request_not_stopped : Forall (fun r => request_isStopped r = false) (requests s);
  inv_timer_ids : Forall (fun t => timer_id t < nextId s) (timers s);
  inv_request_ids : Forall (fun r => request_id r < nextId s) (requests s);
  inv_tracked : Forall (fun t => timer_id t ∈ timeoutRefs s) (timers s);
  inv_history : Forall (fun m => exactlyOne m = true) (conversationHistory s);
  inv_messages :
    Forall (fun c => Forall (fun m => exactlyOne m = true) (messages c)) (chats s)
}.

(** ** Playback, described

    The timers that the loop of [onSent] registers for [words], when it
    starts at time [t0] with timer id [id] and word index [i]. *)
Fixpoint wordTimers (isStopped_c : bool) (t0 id i : nat) (words : list string) : list Timer :=
  match words with
  | [] => []
  | w :: rest =>
      {| timer_id := id; timer_due := t0 + 75 * i;
         timer_callback := Reveal isStopped_c (w +:+ " ") |}
        :: wordTimers isStopped_c t0 (S id) (S i) rest
  end.

(** The tokens [words], each followed by its separator. *)
Definition wordsText (words : list string) : string :=
  foldr (fun w acc => (w +:+ " ") +:+ acc) EmptyString words.

(** The text shown once the first [k] tokens of [botResponse] are revealed. *)
Definition revealedText (k : nat) (botResponse : string) : string :=
  wordsText (take k (JS.split botResponse)).

(** The request that [onSent] issues in state [s]. *)
Definition requestOf (prompt : option string) (s : State) : Request :=
  {| request_id := nextId s;
     request_body :=
       {| query := userQueryOf prompt s;
          body_isThinkingMode := isThinkingMode s;
          chatMemory := match activeChat s with Some c => memory c | None => [] end |};
     request_isStopped := false;
     request_currentChatIndex := currentChatIndex s |}.

(** The state in which an accepted [onSent] leaves a reachable state
    [s]: loading, nothing revealed, no timer left, one more request. *)
Definition sending (prompt : option string) (s : State) : State :=
  {| input := input s; recentPrompt := userQueryOf prompt s;
     prevPrompts := prevPrompts s; showResult := true; loading := true;
     resultData := EmptyString; conversationHistory := conversationHistory s;
     chats := chats s; currentChatIndex := currentChatIndex s;
     isStopped := false; isThinkingMode := isThinkingMode s;
     currentChatIsFull := false;
     abortControllerRef := Some (nextId s); timeoutRefs := [];
     timers := []; requests := requests s ++ [requestOf prompt s];
     now := now s; nextId := S (nextId s) |}.

(** The finalize timer of a playback started at [t0]. *)
Definition finalizeTimer (t0 id : nat) (index : option nat) (q a : string) : Timer :=
  {| timer_id := id;
     timer_due := t0 + (75 * length (JS.split a) + 100);
     timer_callback := Finalize false index q a |}.

(** The state in which the text response [a] to that request leaves
    [sending prompt s]: the playback of [a] is scheduled. *)
Definition playing (prompt : option string) (a : string) (s : State) : State :=
  let n := length (JS.split a) in
  {| input := input s; recentPrompt := userQueryOf prompt s;
     prevPrompts := prevPrompts s; showResult := true; loading := true;
     resultData := EmptyString; conversationHistory := conversationHistory s;
     chats := chats s; currentChatIndex := currentChatIndex s;
     isStopped := false; isThinkingMode := isThinkingMode s;
     currentChatIsFull := false;
     abortControllerRef := Some (nextId s);
     timeoutRefs := seq (S (nextId s)) n ++ [S (nextId s) + n];
     timers :=
       wordTimers false (now s) (S (nextId s)) 0 (JS.split a)
         ++ [finalizeTimer (now s) (S (nextId s) + n) (currentChatIndex s)
               (userQueryOf prompt s) a];
     requests := requests s;
     now := now s; nextId := S (S (nextId s) + n) |}.


(** ** Scenarios *)

Definition stateAfter (es : list Event) : State :=
  match run es init with
  | Done s => s
  | Threw => init
  end.

Definition textResponse (a : string) : FetchOutcome := Response true (Some a) None.

(** One full exchange through the page: type [q], click send, the
    request [id] resolves with the text [a], the playback completes. *)
Definition exchange (id : nat) (q a : string) : list Event :=
  [SetInput q; HandleSend; FetchSettles id (textResponse a);
   Sleep (75 * length (JS.split a) + 100)].

(** Ten exchanges in one chat; each takes three ids. *)
Definition tenExchanges : list Event :=
  flat_map (fun k => exchange (3 * k) "q" "ok") (seq 0 10).

(** The first exchange of a fresh page, up to the arrival of the text
    response "hi there". *)
Definition helloWorld : list Event :=
  [SetInput "hello world"; HandleSend; FetchSettles 0 (textResponse "hi there")].

Definition hiThere : State := stateAfter helloWorld.

(** What is shown, and what is committed to the displayed history,
    [t] ms after state [s]. *)
Definition shownAt (t : nat) (s : State) : option string :=
  match sleep t s with
  | Done s' => Some (resultData s')
  | Threw => None
  end.

Definition committedAt (t : nat) (s : State) : option (list Message) :=
  match sleep t s with
  | Done s' => Some (conversationHistory s')
  | Threw => None
  end.

(** Two sessions, then a third exchange in session 1 whose playback
    has revealed its first token. *)
Definition twoSessions : list Event :=
  exchange 0 "a" "x" ++ [NewChat] ++ exchange 3 "b" "y"
    ++ [SetInput "c"; HandleSend; FetchSettles 6 (textResponse "z w"); Sleep 0].

(** Nine exchanges in one chat, then two sends into it with a switch
    to the same chat in between, both answered afterwards. *)
Definition twoInFlight : list Event :=
  flat_map (fun k => exchange (3 * k) "q" "ok") (seq 0 9)
    ++ [SetInput "a"; HandleSend; OpenChat 0; SetInput "b"; HandleSend;
        FetchSettles 27 (textResponse "x"); FetchSettles 28 (textResponse "y");
        Sleep 175].

(** ** The rest of Context.jsx, Main.jsx and the sidebar *)

(** The controls of [Main.jsx]: the stop button while loading, else the
    New Chat button when the chat is full, else the send icon. *)
Definition newChatButtonShown (s : State) : bool :=
  negb (loading s) && currentChatIsFull s.

(** The placeholder of the input box. *)
Definition placeholder (s : State) : string :=
  if isThinkingMode s then EmptyString
  else if currentChatIsFull s then "Memory full - Start new chat"%string
  else if loading s then "AI is responding..."%string
  else "Enter A Prompt Here"%string.

(** The label of a sidebar entry: [item.slice(0,18)] and three dots. *)
Definition sidebarLabel (item : string) : string := JS.substring0 18 item +:+ "...".

(** ** Sessions over time *)

(** [c'] is [c] at a later time: same title, messages and memory
    extended at the end, a set full flag still set. *)
Definition chatExtends (c c' : Chat) : Prop :=
  title c' = title c
  /\ messages c `prefix_of` messages c'
  /\ memory c `prefix_of` memory c'
  /\ (isMemoryFull c = true -> isMemoryFull c' = true).

(** Every session of [cs] is still there, at its index, in [cs']. *)
Definition chatsExtend (cs cs' : list Chat) : Prop :=
  forall i c, cs !! i = Some c -> exists c', cs' !! i = Some c' /\ chatExtends c c'.

(** The message that a memory entry comes from. *)
Definition messageOf (e : MemoryEntry) : Message :=
  {| question := mem_question e; answer := Some (mem_answer e); graph_path := None |}.

(** What every stored session looks like. *)
Record ChatOk (c : Chat) : Prop := {
  ok_title :
    exists m ms, messages c = m :: ms /\ title c = JS.substring0 20 (question m);
  ok_memory : Forall (fun e => messageOf e ∈ messages c) (memory c);
  ok_full : isMemoryFull c = true <-> memoryLimit <= length (memory c)
}.

Record Sessions (s : State) : Prop := {
  ses_prompts : prevPrompts s = title <$> chats s;
  ses_chats : Forall ChatOk (chats s);
  ses_timers :
    Forall (fun t => match timer_callback t with
                     | Reveal c _ => c = false
                     | Finalize c _ _ _ => c = false
                     end) (timers s)
}.

(** ** One exchange at a time *)

(** The events that call [onSent]. *)
Definition sends (e : Event) : bool :=
  match e with
  | OnSent _ | HandleSend | HandleKeyPress _ => true
  | _ => false
  end.

(** A run in which no question is sent while a request is pending. *)
Fixpoint runSerial (es : list Event) (s : State) : option Outcome :=
  match es with
  | [] => Some (Done s)
  | e :: rest =>
      if sends e && negb (bool_decide (requests s = [])) then None
      else
        match step e s with
        | Done s' => runSerial rest s'
        | Threw => Some Threw
        end
  end.

Definition isFinalize (t : Timer) : bool :=
  match timer_callback t with
  | Finalize _ _ _ _ => true
  | Reveal _ _ => false
  end.

(** The session that a pending finalize timer will write to has room
    for one more memory entry. *)
Definition timerHasRoom (cs : list Chat) (t : Timer) : Prop :=
  match timer_callback t with
  | Finalize _ (Some i) _ _ =>
      forall c, cs !! i = Some c -> length (memory c) < memoryLimit
  | _ => True
  end.

Definition requestHasRoom (cs : list Chat) (r : Request) : Prop :=
  match request_currentChatIndex r with
  | Some i => forall c, cs !! i = Some c -> length (memory c) < memoryLimit
  | None => True
  end.

(** How many of the timers [ts] are finalize timers. *)
Definition finalizeCount (ts : list Timer) : nat :=
  length (filter (fun t => isFinalize t = true) ts).

Record Serial (s : State) : Prop := {
  ser_bound : Forall (fun c => length (memory c) <= memoryLimit) (chats s);
  ser_one : length (requests s) + finalizeCount (timers s) <= 1;
  ser_timers : Forall (timerHasRoom (chats s)) (timers s);
  ser_requests : Forall (requestHasRoom (chats s)) (requests s)
}.

(** ** What pending callbacks refer to *)

(** The session index that a finalize timer captured points into [cs]. *)
Definition timerIndexValid (cs : list Chat) (t : Timer) : Prop :=
  match timer_callback t with
  | Finalize _ index _ _ => indexValid cs index
  | Reveal _ _ => True
  end.

Record Closures (s : State) : Prop := {
  clo_requests :
    Forall (fun r => indexValid (chats s) (request_currentChatIndex r)) (requests s);
  clo_timers : Forall (timerIndexValid (chats s)) (timers s)
}.

(** From [cs] to [cs'] a session either keeps its memory or still has
    room for an entry. *)
Definition keepsRoom (cs cs' : list Chat) : Prop :=
  forall i c', cs' !! i = Some c' ->
    length (memory c') < memoryLimit \/ exists c, cs !! i = Some c /\ memory c' = memory c.

(** From [cs] to [cs'] no memory is written: a session has the memory it
    had, and a session that is new has none. *)
Definition memoryKept (cs cs' : list Chat) : Prop :=
  forall i c', cs' !! i = Some c' ->
    memory c' = match cs !! i with Some c => memory c | None => [] end.

(** The events of the event loop, as opposed to those of the user. *)
Definition passive (e : Event) : bool :=
  match e with
  | FetchSettles _ _ | Sleep _ => true
  | _ => false
  end.

(** ** Failed sends *)

(** The first send of a fresh page, with a [fetch] that rejects. *)
Definition failedFirstSend : list Event :=
  [SetInput "hello world"; HandleSend; FetchSettles 0 Rejected].

(** One complete exchange, then a send that is answered with a status
    that is not [ok]. *)
Definition failedSendInSession : list Event :=
  exchange 0 "q" "ok"
    ++ [SetInput "b"; HandleSend; FetchSettles 3 (Response false None None)].

(** Products such as [75 * i] stay folded under [simpl]. *)
Local Arguments Nat.mul : simpl never.

(** Evaluating setters and fields of a state, arguments first, so that
    nested updates are not duplicated. *)
Ltac state_cbv :=
  cbv [delayPara setTimeout
       setInput setRecentPrompt setPrevPrompts setShowResult setLoading setResultData
       setConversationHistory setChats setCurrentChatIndex setIsStopped setIsThinkingMode
       setCurrentChatIsFull set_abortControllerRef set_timeoutRefs set_timers set_requests
       set_now set_nextId
       input recentPrompt prevPrompts showResult loading resultData conversationHistory
       chats currentChatIndex isStopped isThinkingMode currentChatIsFull
       abortControllerRef timeoutRefs timers requests now nextId].

Section ChatLists.
Implicit Types (cs : list Chat) (c : Chat) (index : option nat).

Lemma fullSync_true cs index : fullSync cs index true.
Proof. intros chat _ _. reflexivity. Qed.

Lemma fullSync_None cs flag : fullSync cs None flag.
Proof. intros chat H. discriminate H. Qed.

Lemma fullSync_push cs c c' flag :
  isMemoryFull c = false -> fullSync (cs ++ [c]) (Some (length (cs ++ [c']) - 1)) flag.
Proof.
  intros Hc chat H Hfull. simpl in H.
  rewrite length_app in H. simpl in H.
  replace (length cs + 1 - 1) with (length cs) in H by lia.
  rewrite lookup_app_r in H by lia.
  rewrite Nat.sub_diag in H. simpl in H. congruence.
Qed.

Lemma fullSync_insert cs index flag j c c' :
  cs !! j = Some c -> isMemoryFull c' = isMemoryFull c ->
  fullSync cs index flag -> fullSync (<[j := c']> cs) index flag.
Proof.
  intros Hj Hsame Hs chat H Hfull. destruct index as [i|]; [|discriminate].
  simpl in H. destruct (decide (j = i)) as [->|Hne].
  - rewrite list_lookup_insert_eq in H by (eapply lookup_lt_Some; eauto).
    injection H as <-. apply (Hs c); [exact Hj | congruence].
  - rewrite list_lookup_insert_ne in H by done. apply (Hs chat); assumption.
Qed.

Lemma indexValid_insert cs index j c :
  indexValid cs index -> indexValid (<[j := c]> cs) index.
Proof. intros H i Hi. rewrite length_insert. auto. Qed.

Lemma indexValid_push cs c c' : indexValid (cs ++ [c]) (Some (length (cs ++ [c']) - 1)).
Proof. intros i [= <-]. rewrite !length_app. simpl. lia. Qed.

Lemma messages_insert cs j c c' (P : Message -> Prop) :
  cs !! j = Some c -> Forall P (messages c') ->
  Forall (fun c => Forall P (messages c)) cs ->
  Forall (fun c => Forall P (messages c)) (<[j := c']> cs).
Proof. intros _ Hc' H. apply Forall_insert; assumption. Qed.
End ChatLists.

(** Preservation of [Inv], handler by handler. *)

Lemma filter_none {A} (P : A -> Prop) `{forall x, Decision (P x)} (l : list A) :
  Forall P l -> filter (fun x => ~ P x) l = [].
Proof.
  induction 1 as [|x l Hx _ IH]; [reflexivity|].
  rewrite filter_cons_False by tauto. exact IH.
Qed.

Lemma Forall_filter_keep {A} (P Q : A -> Prop) `{forall x, Decision (Q x)} (l : list A) :
  Forall P l -> Forall P (filter Q l).
Proof.
  intros H0. apply Forall_forall. intros x Hx.
  apply list_elem_of_filter in Hx as [_ Hx].
  revert x Hx. apply Forall_forall. exact H0.
Qed.

Ltac inv_fields H :=
  destruct H as [Hsync Hindex Hstopped Hreqstopped Htimers Hrequests Htracked Hhistory Hmessages];
  simpl in *; constructor; simpl; try assumption; try reflexivity.

Lemma Inv_clearTimeouts s : Inv s -> Inv (clearTimeouts s).
Proof.
  intros H. unfold clearTimeouts. inv_fields H.
  - apply Forall_filter_keep. assumption.
  - unfold not. rewrite (filter_none _ _ Htracked). constructor.
Qed.

Lemma Inv_abortCurrent s : Inv s -> Inv (abortCurrent s).
Proof.
  intros H. unfold abortCurrent. destruct (abortControllerRef s); [|exact H].
  inv_fields H; apply Forall_filter_keep; assumption.
Qed.

Lemma Inv_catchBlock q s : Inv s -> Inv (catchBlock q s).
Proof.
  intros H. unfold catchBlock. inv_fields H.
  apply Forall_app. split; [assumption|]. repeat constructor.
Qed.

Lemma Forall_lt_S {A} (f : A -> nat) n (l : list A) :
  Forall (fun x => f x < n) l -> Forall (fun x => f x < S n) l.
Proof. intros H. eapply Forall_impl; [exact H|]. simpl. intros x Hx. lia. Qed.

Lemma Inv_onSent prompt s : Inv s -> Inv (onSent prompt s).
Proof.
  intros H. unfold onSent. destruct (currentChatIsFull s) eqn:Hfull; [exact H|].
  apply Inv_clearTimeouts in H.
  match goal with |- Inv (match ?m with _ => _ end) => destruct m end.
  - unfold clearTimeouts in *. inv_fields H.
    + apply Forall_app. split; [assumption|]. repeat constructor. assumption.
    + apply Forall_lt_S. assumption.
    + apply Forall_app. split; [apply Forall_lt_S; assumption|].
      constructor; [simpl; lia | constructor].
  - apply Inv_catchBlock. unfold clearTimeouts in *. inv_fields H.
    + apply Forall_lt_S. assumption.
    + apply Forall_lt_S. assumption.
Qed.

Lemma Inv_stopGeneration s s' : Inv s -> stopGeneration s = Done s' -> Inv s'.
Proof.
  intros H. unfold stopGeneration.
  set (s4 := abortCurrent _).
  assert (H4 : Inv (setIsStopped false s4)).
  { subst s4. unfold abortCurrent, clearTimeouts. simpl.
    destruct (abortControllerRef s); inv_fields H;
      try (apply Forall_filter_keep; assumption);
      unfold not; rewrite (filter_none _ _ Htracked); constructor. }
  destruct (JS.truthy (JS.trim (resultData s))).
  - destruct (stopUpdater _ _ _) as [s6|] eqn:Hupd; [|discriminate].
    simpl. intros [= <-].
    assert (H6 : Inv (setIsStopped false s6)).
    { revert Hupd. unfold stopUpdater.
      destruct (currentChatIndex s) as [i|]; [|discriminate]. simpl.
      destruct (chats s4 !! i) as [chat|] eqn:Hchat; [|discriminate].
      intros [= <-]. inv_fields H4.
      - eapply fullSync_insert; eauto.
      - apply indexValid_insert. assumption.
      - apply Forall_app. split; [assumption|]. repeat constructor.
      - eapply messages_insert; eauto. simpl.
        apply Forall_app. split; [|repeat constructor].
        eapply (Forall_lookup_1 _ _ _ _ Hmessages Hchat). }
    inv_fields H6.
  - simpl. intros [= <-]. inv_fields H4.
Qed.

Lemma Inv_newChat s : Inv s -> Inv (newChat s).
Proof.
  intros H. unfold newChat. inv_fields H.
  - apply fullSync_None.
  - intros i Hi. discriminate.
  - constructor.
Qed.

Lemma Inv_toggleThinkingMode s : Inv s -> Inv (toggleThinkingMode s).
Proof. intros H. unfold toggleThinkingMode. inv_fields H. Qed.

Lemma Inv_openChat index s s' : Inv s -> openChat index s = Done s' -> Inv s'.
Proof.
  intros H. unfold openChat.
  destruct (_ || _)%bool; [intros [= <-]; exact H|].
  destruct (chats s !! Z.to_nat index) as [chat|] eqn:Hchat; [|discriminate].
  intros [= <-]. inv_fields H.
  - intros c Hc Hfull. simpl in Hc. congruence.
  - intros i [= <-]. eapply lookup_lt_Some; eauto.
  - eapply (Forall_lookup_1 _ _ _ _ Hmessages Hchat).
Qed.

Lemma Inv_graphUpdater index q m s s' :
  exactlyOne m = true -> Inv s -> graphUpdater index q m s = Done s' -> Inv s'.
Proof.
  intros Hm H. unfold graphUpdater. destruct index as [i|].
  - destruct (chats s !! i) as [chat|] eqn:Hchat; [|discriminate].
    intros [= <-]. inv_fields H.
    + eapply fullSync_insert; eauto.
    + apply indexValid_insert. assumption.
    + eapply messages_insert; eauto. simpl.
      apply Forall_app. split; [|repeat constructor; assumption].
      eapply (Forall_lookup_1 _ _ _ _ Hmessages Hchat).
  - intros [= <-]. inv_fields H.
    + apply fullSync_push. reflexivity.
    + apply indexValid_push.
    + apply Forall_app. split; [assumption|]. repeat constructor. assumption.
Qed.

Lemma Inv_commitGraph index q g s s' :
  Inv s -> commitGraph index q g s = Done s' -> Inv s'.
Proof.
  intros H. unfold commitGraph.
  destruct (graphUpdater _ _ _ _) as [s2|] eqn:Hupd; [|discriminate].
  simpl. intros [= <-]. apply Inv_graphUpdater in Hupd.
  - inv_fields Hupd.
  - reflexivity.
  - inv_fields H. apply Forall_app. split; [assumption|]. repeat constructor.
Qed.

Lemma Inv_finalizeUpdater index q a m s s' :
  exactlyOne m = true -> Inv s -> finalizeUpdater index q a m s = Done s' -> Inv s'.
Proof.
  intros Hm H. unfold finalizeUpdater. destruct index as [i|].
  - destruct (chats s !! i) as [chat|] eqn:Hchat; [|discriminate].
    assert (Hms : Forall (fun m => exactlyOne m = true) (messages chat ++ [m])).
    { apply Forall_app. split; [|repeat constructor; assumption].
      eapply (Forall_lookup_1 _ _ _ _ (inv_messages _ H) Hchat). }
    destruct (memoryLimit <=? _); intros [= <-]; inv_fields H.
    + apply fullSync_true.
    + apply indexValid_insert. assumption.
    + eapply messages_insert; eauto.
    + eapply fullSync_insert; eauto.
    + apply indexValid_insert. assumption.
    + eapply messages_insert; eauto.
  - destruct (memoryLimit <=? _); intros [= <-]; inv_fields H.
    + apply fullSync_true.
    + apply indexValid_push.
    + apply Forall_app. split; [assumption|]. repeat constructor. assumption.
    + apply fullSync_push. reflexivity.
    + apply indexValid_push.
    + apply Forall_app. split; [assumption|]. repeat constructor. assumption.
Qed.

Lemma Inv_finalize c index q a s s' :
  Inv s -> finalize c index q a s = Done s' -> Inv s'.
Proof.
  intros H. unfold finalize. destruct c; [intros [= <-]; exact H|].
  destruct (finalizeUpdater _ _ _ _ _) as [s2|] eqn:Hupd; [|discriminate].
  simpl. intros [= <-]. apply Inv_finalizeUpdater in Hupd.
  - inv_fields Hupd.
  - reflexivity.
  - inv_fields H. apply Forall_app. split; [assumption|]. repeat constructor.
Qed.

Lemma Inv_setTimeout_tracked cb d s :
  Inv s ->
  Inv (set_timeoutRefs (timeoutRefs (setTimeout cb d s).2 ++ [(setTimeout cb d s).1])
         (setTimeout cb d s).2).
Proof.
  intros H. unfold setTimeout. inv_fields H.
  - apply Forall_app. split; [apply Forall_lt_S; assumption|].
    constructor; [simpl; lia | constructor].
  - apply Forall_lt_S. assumption.
  - apply Forall_app. split.
    + eapply Forall_impl; [exact Htracked|]. simpl. intros t Ht.
      apply elem_of_app. left. exact Ht.
    + constructor; [|constructor]. simpl. apply elem_of_app. right. constructor.
Qed.

Lemma Inv_delayPara c i w s : Inv s -> Inv (delayPara c i w s).
Proof. intros H. unfold delayPara. apply (Inv_setTimeout_tracked _ _ _ H). Qed.

Lemma Inv_delayParaLoop c ws : forall i s, Inv s -> Inv (delayParaLoop c i ws s).
Proof.
  induction ws as [|w ws IH]; intros i s H; [exact H|].
  simpl. apply IH, Inv_delayPara, H.
Qed.

Lemma Inv_playback c index q a s : Inv s -> Inv (playback c index q a s).
Proof.
  intros H. unfold playback.
  apply (Inv_setTimeout_tracked _ _ _ (Inv_delayParaLoop c _ 0 s H)).
Qed.

Lemma Inv_resume r o s s' : Inv s -> resume r o s = Done s' -> Inv s'.
Proof.
  intros H. unfold resume.
  destruct o as [|[] message gp];
    try (intros [= <-]; apply Inv_catchBlock, H).
  destruct (JS.orNull gp).
  - apply Inv_commitGraph, H.
  - destruct (JS.orNull message); intros [= <-].
    + apply Inv_playback, H.
    + apply Inv_catchBlock, H.
Qed.

Lemma Inv_fetchSettles id o s s' : Inv s -> fetchSettles id o s = Done s' -> Inv s'.
Proof.
  intros H. unfold fetchSettles.
  destruct (find _ _) as [r|]; [|intros [= <-]; exact H].
  apply Inv_resume. inv_fields H; apply Forall_filter_keep; assumption.
Qed.

Lemma Inv_runCallback cb s s' : Inv s -> runCallback cb s = Done s' -> Inv s'.
Proof.
  intros H. destruct cb as [c w|c index q a]; simpl.
  - destruct c; intros [= <-]; [exact H|]. inv_fields H.
  - apply Inv_finalize, H.
Qed.

Lemma Inv_runCallbacks ts : forall s s', Inv s -> runCallbacks ts s = Done s' -> Inv s'.
Proof.
  induction ts as [|t ts IH]; intros s s' H; simpl.
  - intros [= <-]. exact H.
  - destruct (runCallback _ s) as [s1|] eqn:Hcb; [|discriminate]. simpl.
    apply IH. eapply Inv_runCallback; eauto.
Qed.

Lemma Inv_sleep d s s' : Inv s -> sleep d s = Done s' -> Inv s'.
Proof.
  intros H. unfold sleep. apply Inv_runCallbacks.
  inv_fields H; apply Forall_filter_keep; assumption.
Qed.

Lemma Inv_handleSend s : Inv s -> Inv (handleSend s).
Proof.
  intros H. unfold handleSend. apply (Inv_onSent None) in H. inv_fields H.
Qed.

Lemma Inv_handleKeyPress key s : Inv s -> Inv (handleKeyPress key s).
Proof.
  intros H. unfold handleKeyPress.
  destruct (_ && _)%bool; [apply Inv_handleSend|]; exact H.
Qed.

Lemma Inv_step e s s' : Inv s -> step e s = Done s' -> Inv s'.
Proof.
  intros H. destruct e; simpl; try (intros [= <-]).
  - inv_fields H.
  - apply Inv_onSent, H.
  - apply Inv_handleSend, H.
  - apply Inv_handleKeyPress, H.
  - apply Inv_stopGeneration, H.
  - apply Inv_newChat, H.
  - apply Inv_openChat, H.
  - apply Inv_toggleThinkingMode, H.
  - apply Inv_fetchSettles, H.
  - apply Inv_sleep, H.
Qed.

Lemma Inv_run es : forall s s', Inv s -> run es s = Done s' -> Inv s'.
Proof.
  induction es as [|e es IH]; intros s s' H; simpl.
  - intros [= <-]. exact H.
  - destruct (step e s) as [s1|] eqn:Hstep; [|discriminate]. simpl.
    apply IH. eapply Inv_step; eauto.
Qed.

Lemma Inv_init : Inv init.
Proof.
  constructor; simpl; try constructor.
  - apply fullSync_None.
  - intros i Hi. discriminate.
Qed.

Lemma reachable_Inv s : reachable s -> Inv s.
Proof. intros [es Hes]. eapply Inv_run; [apply Inv_init | exact Hes]. Qed.

(** ** The playback schedule *)

Lemma delayParaLoop_eq c ws : forall i s,
  delayParaLoop c i ws s =
  set_timeoutRefs (timeoutRefs s ++ seq (nextId s) (length ws))
    (set_nextId (nextId s + length ws)
       (set_timers (timers s ++ wordTimers c (now s) (nextId s) i ws) s)).
Proof.
  induction ws as [|w ws IH]; intros i s.
  - destruct s. state_cbv. simpl.
    rewrite !app_nil_r, Nat.add_0_r. reflexivity.
  - simpl. rewrite IH. destruct s. state_cbv.
    rewrite <- !app_assoc. simpl. rewrite Nat.add_succ_r. reflexivity.
Qed.

Lemma filter_all {A} (P : A -> Prop) `{forall x, Decision (P x)} (l : list A) :
  Forall P l -> filter P l = l.
Proof.
  induction 1 as [|x l Hx _ IH]; [reflexivity|].
  rewrite filter_cons_True by assumption. rewrite IH. reflexivity.
Qed.

Lemma wordTimers_due c t0 ws : forall id i,
  Forall (fun t => t0 + 75 * i <= timer_due t) (wordTimers c t0 id i ws).
Proof.
  induction ws as [|w ws IH]; intros id i; simpl; constructor.
  - simpl. lia.
  - eapply Forall_impl; [apply IH|]. simpl. intros t Ht. lia.
Qed.

Lemma wordTimers_due_max c t0 ws : forall id i,
  Forall (fun t => timer_due t < t0 + 75 * (i + length ws)) (wordTimers c t0 id i ws).
Proof.
  induction ws as [|w ws IH]; intros id i; simpl; constructor.
  - simpl. lia.
  - eapply Forall_impl; [apply IH|]. simpl. intros t Ht. lia.
Qed.

Lemma filter_wordTimers c t0 k ws : forall id i,
  filter (fun t => timer_due t <= t0 + 75 * k) (wordTimers c t0 id i ws)
  = wordTimers c t0 id i (take (S k - i) ws).
Proof.
  induction ws as [|w ws IH]; intros id i.
  - rewrite take_nil. reflexivity.
  - simpl wordTimers at 1. destruct (decide (i <= k)) as [Hle|Hgt].
    + rewrite filter_cons_True by (simpl; lia).
      replace (S k - i) with (S (k - i)) by lia. simpl. rewrite IH.
      replace (S k - S i) with (k - i) by lia. reflexivity.
    + rewrite filter_cons_False by (simpl; lia).
      rewrite IH. replace (S k - S i) with 0 by lia.
      replace (S k - i) with 0 by lia. reflexivity.
Qed.

Lemma insertByDue_head t ts :
  Forall (fun u => timer_due t <= timer_due u) ts -> insertByDue t ts = t :: ts.
Proof.
  destruct 1 as [|u ts Hu _]; [reflexivity|]. simpl.
  destruct (timer_due u <? timer_due t) eqn:Hlt; [|reflexivity].
  apply Nat.ltb_lt in Hlt. lia.
Qed.

Lemma fireOrder_wordTimers c t0 ws : forall id i,
  fireOrder (wordTimers c t0 id i ws) = wordTimers c t0 id i ws.
Proof.
  induction ws as [|w ws IH]; intros id i; [reflexivity|].
  simpl. fold (fireOrder (wordTimers c t0 (S id) (S i) ws)). rewrite IH.
  apply insertByDue_head.
  eapply Forall_impl; [apply wordTimers_due|]. simpl. intros t Ht. lia.
Qed.

Lemma fireOrder_schedule c t0 fin ws : forall id i,
  t0 + 75 * (i + length ws) <= timer_due fin ->
  fireOrder (wordTimers c t0 id i ws ++ [fin]) = wordTimers c t0 id i ws ++ [fin].
Proof.
  induction ws as [|w ws IH]; intros id i Hfin; [reflexivity|].
  simpl in *. fold (fireOrder (wordTimers c t0 (S id) (S i) ws ++ [fin])).
  rewrite IH by lia. apply insertByDue_head. apply Forall_app. split.
  - eapply Forall_impl; [apply wordTimers_due|]. simpl. intros t Ht. lia.
  - repeat constructor. simpl. lia.
Qed.

Lemma append_nil_r (s : string) : s +:+ EmptyString = s.
Proof.
  induction s as [|c s IH]; [reflexivity|].
  change (String c (s +:+ EmptyString) = String c s). rewrite IH. reflexivity.
Qed.

Lemma append_assoc (s1 s2 s3 : string) : (s1 +:+ s2) +:+ s3 = s1 +:+ (s2 +:+ s3).
Proof.
  induction s1 as [|c s1 IH]; [reflexivity|].
  change (String c ((s1 +:+ s2) +:+ s3) = String c (s1 +:+ (s2 +:+ s3))).
  rewrite IH. reflexivity.
Qed.

Lemma runCallbacks_wordTimers t0 ws : forall id i s,
  runCallbacks (wordTimers false t0 id i ws) s
  = Done (setResultData (resultData s +:+ wordsText ws) s).
Proof.
  induction ws as [|w ws IH]; intros id i s.
  - simpl. change (wordsText []) with EmptyString. rewrite append_nil_r. destruct s; reflexivity.
  - simpl. rewrite IH. simpl. rewrite append_assoc. reflexivity.
Qed.

Lemma bindO_Done o : bindO o (fun s => Done s) = o.
Proof. destruct o; reflexivity. Qed.

Lemma runCallbacks_app ts1 ts2 : forall s,
  runCallbacks (ts1 ++ ts2) s = bindO (runCallbacks ts1 s) (runCallbacks ts2).
Proof.
  induction ts1 as [|t ts1 IH]; intros s; [reflexivity|].
  simpl. destruct (runCallback (timer_callback t) s); simpl; [apply IH | reflexivity].
Qed.

Lemma find_request_last id (rs : list Request) r :
  Forall (fun r => request_id r < id) rs -> request_id r = id ->
  List.find (fun r => request_id r =? id) (rs ++ [r]) = Some r.
Proof.
  intros Hrs Hr. induction Hrs as [|x rs Hx _ IH]; simpl.
  - rewrite Hr, Nat.eqb_refl. reflexivity.
  - destruct (request_id x =? id) eqn:Heq; [|exact IH].
    apply Nat.eqb_eq in Heq. lia.
Qed.

Lemma filter_request_last id (rs : list Request) r :
  Forall (fun r => request_id r < id) rs -> request_id r = id ->
  filter (fun r => request_id r ≠ id) (rs ++ [r]) = rs.
Proof.
  intros Hrs Hr. rewrite filter_app.
  rewrite filter_all by (eapply Forall_impl; [exact Hrs|]; simpl; intros; lia).
  rewrite filter_cons_False by (intros H; apply H; exact Hr).
  apply app_nil_r.
Qed.

Lemma clearTimeouts_tracked s :
  Forall (fun t => timer_id t ∈ timeoutRefs s) (timers s) ->
  clearTimeouts s = set_timeoutRefs [] (set_timers [] s).
Proof.
  intros H. unfold clearTimeouts, not. rewrite (filter_none _ _ H). reflexivity.
Qed.

Lemma onSent_sending prompt s :
  Inv s -> currentChatIsFull s = false -> onSent prompt s = sending prompt s.
Proof.
  intros H Hfull. unfold onSent. rewrite Hfull.
  rewrite clearTimeouts_tracked by exact (inv_tracked _ H).
  pose proof (inv_not_stopped _ H) as Hstopped.
  unfold sending, requestOf, activeChat.
  destruct (currentChatIndex s) as [i|] eqn:Hi; simpl chatAt; cbv beta iota.
  - destruct (lookup_lt_is_Some_2 (chats s) i (inv_index _ H i Hi)) as [chat Hchat].
    rewrite Hchat. simpl option_map. cbv beta iota.
    destruct s. simpl in *. subst. reflexivity.
  - destruct s. simpl in *. subst. reflexivity.
Qed.

Lemma fetchSettles_sending prompt o s :
  Inv s ->
  fetchSettles (nextId s) o (sending prompt s)
  = resume (requestOf prompt s) o (set_requests (requests s) (sending prompt s)).
Proof.
  intros H. unfold fetchSettles. simpl.
  rewrite (find_request_last _ _ _ (inv_request_ids _ H)) by reflexivity.
  rewrite (filter_request_last _ _ _ (inv_request_ids _ H)) by reflexivity.
  reflexivity.
Qed.

Lemma text_response_playing prompt a s :
  Inv s -> JS.truthy a = true ->
  fetchSettles (nextId s) (textResponse a) (sending prompt s) = Done (playing prompt a s).
Proof.
  intros H Ha. rewrite fetchSettles_sending by assumption.
  unfold resume, textResponse. simpl. rewrite Ha. f_equal.
  unfold playback. rewrite delayParaLoop_eq. unfold playing, finalizeTimer. simpl.
  rewrite Nat.add_succ_r. reflexivity.
Qed.

Lemma sleep_playing_tokens prompt a s k :
  k < length (JS.split a) ->
  sleep (75 * k) (playing prompt a s)
  = Done (setResultData (revealedText (S k) a)
            (set_now (now s + 75 * k)
               (set_timers
                  (filter (fun t => ~ timer_due t <= now s + 75 * k)
                     (timers (playing prompt a s)))
                  (playing prompt a s)))).
Proof.
  intros Hk.
  assert (Hdue : filter (fun t => timer_due t <= now s + 75 * k)
                   (timers (playing prompt a s))
                 = wordTimers false (now s) (S (nextId s)) 0 (take (S k) (JS.split a))).
  { change (timers (playing prompt a s)) with
      (wordTimers false (now s) (S (nextId s)) 0 (JS.split a)
         ++ [finalizeTimer (now s) (S (nextId s) + length (JS.split a))
               (currentChatIndex s) (userQueryOf prompt s) a]).
    rewrite filter_app, filter_wordTimers, Nat.sub_0_r.
    rewrite filter_cons_False by (unfold finalizeTimer; simpl; lia).
    rewrite filter_nil. apply app_nil_r. }
  unfold sleep. change (now (playing prompt a s)) with (now s).
  rewrite Hdue, fireOrder_wordTimers, runCallbacks_wordTimers.
  reflexivity.
Qed.

Lemma sleep_playing_complete prompt a s :
  sleep (75 * length (JS.split a) + 100) (playing prompt a s)
  = finalize false (currentChatIndex s) (userQueryOf prompt s) a
      (setResultData (wordsText (JS.split a))
         (set_now (now s + (75 * length (JS.split a) + 100))
            (set_timers [] (playing prompt a s)))).
Proof.
  unfold sleep.
  change (now (playing prompt a s)) with (now s).
  change (timers (playing prompt a s)) with
    (wordTimers false (now s) (S (nextId s)) 0 (JS.split a)
       ++ [finalizeTimer (now s) (S (nextId s) + length (JS.split a))
             (currentChatIndex s) (userQueryOf prompt s) a]).
  assert (Hall : Forall (fun t => timer_due t <= now s + (75 * length (JS.split a) + 100))
                   (wordTimers false (now s) (S (nextId s)) 0 (JS.split a)
                      ++ [finalizeTimer (now s) (S (nextId s) + length (JS.split a))
                            (currentChatIndex s) (userQueryOf prompt s) a])).
  { apply Forall_app. split.
    - eapply Forall_impl; [apply wordTimers_due_max|]. simpl. intros t Ht. lia.
    - repeat constructor. }
  rewrite (filter_all _ _ Hall).
  unfold not. rewrite (filter_none _ _ Hall).
  rewrite fireOrder_schedule by (unfold finalizeTimer; simpl; lia).
  rewrite runCallbacks_app, runCallbacks_wordTimers.
  cbn [bindO runCallbacks runCallback timer_callback finalizeTimer].
  rewrite bindO_Done. reflexivity.
Qed.



Lemma memory_insert_withMessages (cs : list Chat) i chat ms :
  cs !! i = Some chat -> memory <$> <[i := withMessages chat ms]> cs = memory <$> cs.
Proof.
  intros Hi. rewrite list_fmap_insert. apply list_insert_id.
  rewrite list_lookup_fmap, Hi. reflexivity.
Qed.

Lemma abortCurrent_requests x :
  exists rs, abortCurrent x = set_requests rs x.
Proof.
  unfold abortCurrent. destruct (abortControllerRef x).
  - eexists. reflexivity.
  - exists (requests x). destruct x. reflexivity.
Qed.

Lemma stopGeneration_spec s i chat :
  Inv s -> currentChatIndex s = Some i -> chats s !! i = Some chat ->
  let newMessage :=
    {| question := recentPrompt s; answer := Some (resultData s); graph_path := None |} in
  exists s', stopGeneration s = Done s'
    /\ input s' = recentPrompt s /\ loading s' = false /\ timers s' = []
    /\ memory <$> chats s' = memory <$> chats s
    /\ if JS.truthy (JS.trim (resultData s)) then
         chats s' = <[i := withMessages chat (messages chat ++ [newMessage])]> (chats s)
         /\ conversationHistory s' = conversationHistory s ++ [newMessage]
       else chats s' = chats s /\ conversationHistory s' = conversationHistory s.
Proof.
  intros H Hi Hchat newMessage. unfold stopGeneration, stopUpdater.
  rewrite clearTimeouts_tracked by exact (inv_tracked _ H).
  destruct (abortCurrent_requests
              (set_timeoutRefs [] (set_timers [] (setLoading false (setIsStopped true s)))))
    as [rs ->].
  rewrite Hi. destruct (JS.truthy (JS.trim (resultData s))).
  - simpl chatAt. simpl chats. rewrite Hchat. cbn [bindO].
    eexists. split; [reflexivity|]. simpl.
    split; [reflexivity|]. split; [reflexivity|]. split; [reflexivity|].
    split; [apply memory_insert_withMessages, Hchat|]. split; reflexivity.
  - cbn [bindO]. eexists. split; [reflexivity|]. simpl.
    repeat split; reflexivity.
Qed.

Lemma reachable_run es s s' : reachable s -> run es s = Done s' -> reachable s'.
Proof.
  intros [es0 H0] H. exists (es0 ++ es).
  revert H0. generalize init. induction es0 as [|e es0 IH]; intros s0; simpl.
  - intros [= ->]. exact H.
  - destruct (step e s0); simpl; [apply IH | discriminate].
Qed.


Lemma lookup_push (cs : list Chat) c c' :
  (cs ++ [c]) !! (length (cs ++ [c']) - 1) = Some c.
Proof.
  rewrite length_app. simpl.
  replace (length cs + 1 - 1) with (length cs) by lia.
  rewrite lookup_app_r by lia. rewrite Nat.sub_diag. reflexivity.
Qed.

Lemma finalize_commits q a x :
  indexValid (chats x) (currentChatIndex x) ->
  let newMessage := {| question := q; answer := Some a; graph_path := None |} in
  exists s' chat,
    finalize false (currentChatIndex x) q a x = Done s'
    /\ activeChat s' = Some chat
    /\ last (messages chat) = Some newMessage
    /\ last (conversationHistory s') = Some newMessage
    /\ loading s' = false.
Proof.
  intros Hvalid newMessage. unfold finalize, finalizeUpdater, activeChat.
  destruct (currentChatIndex x) as [i|] eqn:Hi.
  - destruct (lookup_lt_is_Some_2 (chats x) i (Hvalid i eq_refl)) as [chat Hchat].
    simpl chats. rewrite Hchat.
    match goal with |- context [memoryLimit <=? ?n] => destruct (memoryLimit <=? n) end;
      cbn [bindO]; eexists; eexists; (split; [reflexivity|]); simpl;
      rewrite ?Hi; simpl;
      (rewrite list_lookup_insert_eq by (eapply lookup_lt_Some; eauto));
      repeat split; simpl; apply last_snoc.
  - simpl chats.
    match goal with |- context [memoryLimit <=? ?n] => destruct (memoryLimit <=? n) end;
      cbn [bindO]; eexists; eexists; (split; [reflexivity|]); simpl;
      rewrite lookup_push; repeat split; apply last_snoc.
Qed.

Lemma commitGraph_commits q g x :
  indexValid (chats x) (currentChatIndex x) ->
  let newMessage := {| question := q; answer := None; graph_path := Some g |} in
  exists s' chat,
    commitGraph (currentChatIndex x) q g x = Done s'
    /\ activeChat s' = Some chat
    /\ last (messages chat) = Some newMessage
    /\ last (conversationHistory s') = Some newMessage
    /\ loading s' = false.
Proof.
  intros Hvalid newMessage. unfold commitGraph, graphUpdater, activeChat.
  destruct (currentChatIndex x) as [i|] eqn:Hi.
  - destruct (lookup_lt_is_Some_2 (chats x) i (Hvalid i eq_refl)) as [chat Hchat].
    simpl chats. rewrite Hchat. cbn [bindO]. eexists; eexists.
    split; [reflexivity|]. simpl. rewrite ?Hi. simpl.
    rewrite list_lookup_insert_eq by (eapply lookup_lt_Some; eauto).
    repeat split; simpl; apply last_snoc.
  - cbn [bindO]. eexists; eexists. split; [reflexivity|]. simpl.
    rewrite lookup_push. repeat split; apply last_snoc.
Qed.

(** Closed statements about the scenarios are settled by evaluation. *)
Ltac by_evaluation :=
  repeat match goal with
         | |- _ /\ _ => split
         | |- let _ := _ in _ => intro
         end;
  vm_compute; reflexivity.

(** * The specified properties *)

(** ** C1: a new chat or a switch while an exchange is in flight *)

(** C1. The specification asks that [newChat] and [openChat] cancel
    the pending token timers and the outstanding request of the
    exchange in flight, so that nothing of it is shown or committed
    afterwards.  The code does not: neither function clears
    [timeoutRefs] or aborts the controller, as [stopGeneration] does.
    Evaluated on the page:
    (1) "hello world" is sent, "hi there" arrives, "hi " is revealed and
    the user starts a new chat; the two remaining timers are still
    pending, 75 ms later "there " is appended to the emptied display and
    175 ms after that the exchange is committed as a new session which
    becomes the active one;
    (2) a new chat started while the request is pending leaves the
    request pending, and its answer then starts a playback;
    (3) with two sessions and a playback running in session 1, opening
    session 0 leaves the timers pending; the finished answer is then
    appended to the displayed history of session 0 and stored in
    session 1. *)
Theorem newChat_and_openChat_leave_exchange_running :
  (let s0 := stateAfter (helloWorld ++ [Sleep 0; NewChat]) in
   let s1 := stateAfter (helloWorld ++ [Sleep 0; NewChat; Sleep 75]) in
   let s2 := stateAfter (helloWorld ++ [Sleep 0; NewChat; Sleep 75; Sleep 175]) in
   runUI (helloWorld ++ [Sleep 0; NewChat]) init = Some (Done s0)
   /\ resultData s0 = EmptyString /\ conversationHistory s0 = []
   /\ currentChatIndex s0 = None /\ length (timers s0) = 2
   /\ sleep 75 s0 = Done s1
   /\ resultData s1 = "there "%string
   /\ sleep 175 s1 = Done s2
   /\ conversationHistory s2
      = [{| question := "hello world"; answer := Some "hi there"%string;
            graph_path := None |}]
   /\ currentChatIndex s2 = Some 0
   /\ length (chats s2) = 1)
  /\ (let s0 := stateAfter [SetInput "hello world"; HandleSend; NewChat] in
      runUI [SetInput "hello world"; HandleSend; NewChat] init = Some (Done s0)
      /\ length (requests s0) = 1
      /\ fetchSettles 0 (textResponse "hi there") s0
         = Done (stateAfter [SetInput "hello world"; HandleSend; NewChat;
                             FetchSettles 0 (textResponse "hi there")])
      /\ length (timers (stateAfter [SetInput "hello world"; HandleSend; NewChat;
                                     FetchSettles 0 (textResponse "hi there")])) = 3)
  /\ (let s0 := stateAfter twoSessions in
      let s1 := stateAfter (twoSessions ++ [OpenChat 0]) in
      let s2 := stateAfter (twoSessions ++ [OpenChat 0; Sleep 250]) in
      let stale :=
        {| question := "c"; answer := Some "z w"%string; graph_path := None |} in
      runUI (twoSessions ++ [OpenChat 0]) init = Some (Done s1)
      /\ currentChatIndex s0 = Some 1
      /\ currentChatIndex s1 = Some 0
      /\ Some (conversationHistory s1) = messages <$> chats s1 !! 0
      /\ length (timers s1) = 2
      /\ sleep 250 s1 = Done s2
      /\ currentChatIndex s2 = Some 0
      /\ conversationHistory s2 = conversationHistory s1 ++ [stale]
      /\ chats s2 !! 0 = chats s1 !! 0
      /\ (messages <$> chats s2 !! 1) = (fun c => messages c ++ [stale]) <$> chats s1 !! 1).
Proof. by_evaluation. Qed.

(** ** C2: the memory bound *)

(** C2. The specification asks that no session's memory ever exceeds
    [memoryLimit] = 10.  The guard of [onSent] is evaluated when a
    question is sent, the memory grows when its finalize timer fires,
    and [openChat] makes the page accept a second question while the
    first is unanswered.  Evaluated on the page: after nine exchanges
    in one chat, a question is sent, the same chat is opened from the
    sidebar, a second question is sent, and both are answered; the chat
    ends with eleven memory entries. *)
Theorem two_in_flight_overfill_memory :
  let s := stateAfter twoInFlight in
  runUI twoInFlight init = Some (Done s)
  /\ length (chats s) = 1
  /\ (length <$> (memory <$> chats s !! 0)) = Some 11
  /\ (isMemoryFull <$> chats s !! 0) = Some true
  /\ memoryLimit = 10.
Proof. by_evaluation. Qed.

(** ** C3: stopping a playback *)




(** ** C4: stopping the first exchange of a fresh chat *)

(** C4. The specification asks that the session access of
    [stopGeneration] is in bounds whenever text has been revealed, also
    during the first exchange of a fresh chat.  There
    [currentChatIndex] is still [null], [nextChats[null]] is
    [undefined], and spreading its [messages] raises a [TypeError] in
    the updater: with "hi " revealed and no session yet,
    [stopGeneration] throws. *)
Theorem stop_during_first_exchange_throws :
  let s := stateAfter (helloWorld ++ [Sleep 0]) in
  runUI (helloWorld ++ [Sleep 0]) init = Some (Done s)
  /\ loading s = true
  /\ resultData s = "hi "%string
  /\ currentChatIndex s = None
  /\ chats s = []
  /\ stopGeneration s = Threw.
Proof. by_evaluation. Qed.

(** ** C5: the timing of a playback *)

(** C5, as stated, fails: the display does not change from empty to
    "hi " at 75 ms and to "hi there " at 150 ms after the response. *)
Lemma hi_there_not_at_75_and_150 :
  ~ (shownAt 74 hiThere = Some EmptyString
     /\ shownAt 75 hiThere = Some "hi "%string
     /\ shownAt 149 hiThere = Some "hi "%string
     /\ shownAt 150 hiThere = Some "hi there "%string).
Proof. intros (H & _). vm_compute in H. discriminate H. Qed.

(** C5, amended.  For the response "hi there" the three timers are due
    0, 75 and 250 ms after the response: "hi " is shown from 0 ms,
    "hi there " from 75 ms, and the exchange is committed, with loading
    switched off, at 250 ms = 2 * 75 + 100 and not before. *)
Theorem hi_there_at_0_and_75 :
  resultData hiThere = EmptyString
  /\ map timer_due (timers hiThere) = [0; 75; 75 * 2 + 100]
  /\ shownAt 0 hiThere = Some "hi "%string
  /\ shownAt 74 hiThere = Some "hi "%string
  /\ shownAt 75 hiThere = Some "hi there "%string
  /\ shownAt 249 hiThere = Some "hi there "%string
  /\ committedAt 249 hiThere = Some []
  /\ committedAt 250 hiThere
     = Some [{| question := "hello world"; answer := Some "hi there"%string;
                graph_path := None |}]
  /\ (loading <$> Some (stateAfter (helloWorld ++ [Sleep 250]))) = Some false.
Proof. by_evaluation. Qed.

(** ** C6: a failed service call *)

(** When the request of an accepted send fails, by a rejected [fetch]
    or by a response that is not [ok], the exchange is added to the
    displayed history with the apology as its answer and loading is
    switched off; no request or timer of the exchange is left.  The
    stored sessions, the active index and the full flag are untouched,
    and every further send is accepted. *)
Lemma failed_send_shows_apology (s : State) (prompt : option string) (o : FetchOutcome) :
  reachable s -> currentChatIsFull s = false ->
  (o = Rejected \/ exists message g, o = Response false message g) ->
  let q := userQueryOf prompt s in
  exists s',
    run [OnSent prompt; FetchSettles (nextId s) o] s = Done s'
    /\ conversationHistory s'
       = conversationHistory s
           ++ [{| question := q; answer := Some apology; graph_path := None |}]
    /\ loading s' = false
    /\ requests s' = requests s /\ timers s' = []
    /\ chats s' = chats s /\ currentChatIndex s' = currentChatIndex s
    /\ currentChatIsFull s' = false
    /\ forall p, loading (onSent p s') = true
                 /\ requests (onSent p s') = requests s' ++ [requestOf p s'].
Proof.
  intros Hs Hfull Ho q.
  assert (Hs' : forall s', run [OnSent prompt; FetchSettles (nextId s) o] s = Done s' ->
                           Inv s').
  { intros s' Hrun. apply reachable_Inv. eapply reachable_run; eauto. }
  apply reachable_Inv in Hs.
  assert (Hrun : run [OnSent prompt; FetchSettles (nextId s) o] s
                 = Done (catchBlock q (set_requests (requests s) (sending prompt s)))).
  { cbn [run step bindO]. rewrite onSent_sending by assumption. cbn [bindO].
    rewrite fetchSettles_sending by assumption.
    destruct Ho as [->|(message & g & ->)]; reflexivity. }
  eexists. split; [exact Hrun|].
  repeat (split; [reflexivity|]).
  intros p. rewrite (onSent_sending p _ (Hs' _ Hrun) eq_refl).
  split; reflexivity.
Qed.

(** C6. The specification asks that a failed send commits the apology
    as the answer of the exchange.  The [catch] block appends the
    exchange to the displayed history only: unlike the chart commit, the
    commit at the end of a playback and the commit of a stop, it has no
    [setChats] and no [setPrevPrompts].  After a failed first send the
    apology is on display and loading is off, but there is no session
    and no sidebar entry for the exchange.  After a failed send in a
    session the display has the exchange and the session has not; a
    click on the session's own sidebar entry shows the session without
    it. *)
Theorem failed_send_is_not_stored :
  let s := stateAfter failedFirstSend in
  let t := stateAfter failedSendInSession in
  let u := stateAfter (failedSendInSession ++ [OpenChat 0]) in
  let qOk := {| question := "q"; answer := Some "ok"%string; graph_path := None |} in
  runUI failedFirstSend init = Some (Done s)
  /\ conversationHistory s
     = [{| question := "hello world";
           answer := Some "Sorry, I'm having trouble connecting to my backend."%string;
           graph_path := None |}]
  /\ loading s = false
  /\ chats s = [] /\ prevPrompts s = [] /\ currentChatIndex s = None
  /\ runUI failedSendInSession init = Some (Done t)
  /\ conversationHistory t
     = [qOk; {| question := "b"; answer := Some apology; graph_path := None |}]
  /\ loading t = false /\ currentChatIndex t = Some 0
  /\ map messages (chats t) = [[qOk]]
  /\ runUI (failedSendInSession ++ [OpenChat 0]) init = Some (Done u)
  /\ conversationHistory u = [qOk]
  /\ map messages (chats u) = [[qOk]].
Proof. by_evaluation. Qed.

(** ** C7: sending while the active session is full *)

(** C7. In every reachable state whose active session has its
    [isMemoryFull] flag set, [onSent] returns at its guard and the
    whole state is unchanged: messages, memory, loading flag and the
    pending requests are what they were.  The page shows no send
    control in such a state either. *)
Theorem onSent_full_session_unchanged (s : State) (chat : Chat) (prompt : option string) :
  reachable s -> activeChat s = Some chat -> isMemoryFull chat = true ->
  onSent prompt s = s /\ sendIconShown s = false /\ inputDisabled s = true.
Proof.
  intros Hs Hchat Hfull. apply reachable_Inv in Hs.
  pose proof (inv_sync _ Hs chat Hchat Hfull) as Hflag.
  unfold onSent, sendIconShown, inputDisabled. rewrite Hflag.
  repeat split; [|apply orb_true_r].
  rewrite andb_false_r. reflexivity.
Qed.

Lemma onSent_full_session_unchanged_witness :
  onSent (Some "c"%string) (stateAfter tenExchanges) = stateAfter tenExchanges
  /\ sendIconShown (stateAfter tenExchanges) = false
  /\ inputDisabled (stateAfter tenExchanges) = true.
Proof.
  eapply onSent_full_session_unchanged.
  - exists tenExchanges. vm_compute. reflexivity.
  - vm_compute. reflexivity.
  - vm_compute. reflexivity.
Defined.

(** ** C8: sending blank text *)

(** C8. The specification asks that a query whose trimmed text is
    empty is rejected without any state change.  Only [handleKeyPress]
    tests [input.trim()]; the send icon is rendered for any non-empty
    input and [onSent] has no test at all.  With a single space as
    input, pressing Enter does nothing, but the icon is shown and a
    click on it switches loading on and sends that query.  Called with
    the empty string, [onSent] sends as well. *)
Theorem blank_query_is_sent :
  let s := stateAfter [SetInput " "; HandleSend] in
  JS.trim " " = EmptyString
  /\ handleKeyPress "Enter" (setInput " " init) = setInput " " init
  /\ sendIconShown (setInput " " init) = true
  /\ runUI [SetInput " "; HandleSend] init = Some (Done s)
  /\ loading s = true
  /\ map (fun r => query (request_body r)) (requests s) = [" "%string]
  /\ loading (onSent (Some EmptyString) init) = true
  /\ map (fun r => query (request_body r)) (requests (onSent (Some EmptyString) init))
     = [EmptyString].
Proof. by_evaluation. Qed.

(** ** C9: what a commit stores *)

(** C9. From a reachable state that accepts a question: when the text
    answer [a] has arrived and its playback has completed, the last
    message of the active session is the question with the answer [a]
    and no [graph_path]; when a response with the chart path [g] has
    arrived, the last message of the active session is the question
    with the [graph_path] [g] and no [answer].  The displayed history
    ends with the same message.  Every message of every stored
    session, and every displayed message, has exactly one of the
    two. *)
Theorem commit_round_trip (s : State) (prompt : option string) :
  reachable s -> currentChatIsFull s = false ->
  let q := userQueryOf prompt s in
  (forall a, JS.truthy a = true ->
     let newMessage := {| question := q; answer := Some a; graph_path := None |} in
     exists s' chat,
       run [OnSent prompt; FetchSettles (nextId s) (textResponse a);
            Sleep (75 * length (JS.split a) + 100)] s = Done s'
       /\ activeChat s' = Some chat
       /\ last (messages chat) = Some newMessage
       /\ last (conversationHistory s') = Some newMessage)
  /\ (forall message g, JS.truthy g = true ->
        let newMessage := {| question := q; answer := None; graph_path := Some g |} in
        exists s' chat,
          run [OnSent prompt; FetchSettles (nextId s) (Response true message (Some g))] s
            = Done s'
          /\ activeChat s' = Some chat
          /\ last (messages chat) = Some newMessage
          /\ last (conversationHistory s') = Some newMessage)
  /\ Forall (fun c => Forall (fun m => exactlyOne m = true) (messages c)) (chats s)
  /\ Forall (fun m => exactlyOne m = true) (conversationHistory s).
Proof.
  intros Hs Hfull q. apply reachable_Inv in Hs.
  split; [|split; [|split]].
  - intros a Ha newMessage. cbn [run step bindO].
    rewrite onSent_sending by assumption. cbn [bindO].
    rewrite text_response_playing by assumption. cbn [bindO].
    rewrite sleep_playing_complete.
    match goal with |- context [finalize false _ _ _ ?st] => set (x := st) end.
    destruct (finalize_commits q a x (inv_index _ Hs))
      as (s' & chat & Hfin & Hactive & Hlast & Hshown & _).
    exists s', chat. split; [|repeat split; assumption].
    rewrite bindO_Done. exact Hfin.
  - intros message g Hg newMessage. cbn [run step bindO].
    rewrite onSent_sending by assumption. cbn [bindO].
    rewrite fetchSettles_sending by assumption.
    unfold resume. destruct g as [|c g]; [discriminate|].
    cbn [JS.orNull JS.truthy].
    match goal with |- context [commitGraph _ _ _ ?st] => set (x := st) end.
    destruct (commitGraph_commits q (String c g) x (inv_index _ Hs))
      as (s' & chat & Hcommit & Hactive & Hlast & Hshown & _).
    exists s', chat. split; [|repeat split; assumption].
    rewrite bindO_Done. exact Hcommit.
  - apply (inv_messages _ Hs).
  - apply (inv_history _ Hs).
Qed.

Lemma commit_round_trip_witness :
  exists s' chat,
    run [OnSent (Some "hello world"%string); FetchSettles 0 (textResponse "hi there");
         Sleep (75 * length (JS.split "hi there") + 100)] init = Done s'
    /\ activeChat s' = Some chat
    /\ last (messages chat)
       = Some {| question := "hello world"; answer := Some "hi there"%string;
                 graph_path := None |}.
Proof.
  destruct (commit_round_trip init (Some "hello world"%string)) as (Htext & _).
  - exists []. reflexivity.
  - reflexivity.
  - destruct (Htext "hi there"%string eq_refl)
      as (s' & chat & Hrun & Hactive & Hlast & _).
    exists s', chat. split; [exact Hrun|]. split; [exact Hactive | exact Hlast].
Defined.

(** ** C10: switching to a session that does not exist *)

(** C10. For every index outside [0, chats.length), [openChat(index)]
    returns at its guard: the active index, the sessions and the
    transient exchange state are all left as they were. *)
Theorem openChat_out_of_range_noop (s : State) (index : Z) :
  (index < 0 \/ Z.of_nat (length (chats s)) <= index)%Z ->
  openChat index s = Done s.
Proof.
  intros H. unfold openChat.
  destruct (index <? 0)%Z eqn:Hlt; [reflexivity|].
  destruct (Z.of_nat (length (chats s)) <=? index)%Z eqn:Hge; [reflexivity|].
  lia.
Qed.

Lemma openChat_out_of_range_noop_witness :
  openChat 1 (stateAfter (exchange 0 "q" "ok")) = Done (stateAfter (exchange 0 "q" "ok")).
Proof. apply openChat_out_of_range_noop. right. vm_compute. discriminate. Defined.

(** * Further properties *)

(** ** Sessions are never lost *)

Lemma chatExtends_refl c : chatExtends c c.
Proof. repeat split; auto. Qed.

Lemma chatExtends_trans c1 c2 c3 :
  chatExtends c1 c2 -> chatExtends c2 c3 -> chatExtends c1 c3.
Proof.
  intros (Ht1 & Hm1 & Hy1 & Hf1) (Ht2 & Hm2 & Hy2 & Hf2). repeat split.
  - congruence.
  - etrans; eassumption.
  - etrans; eassumption.
  - auto.
Qed.

Lemma chatsExtend_refl cs : chatsExtend cs cs.
Proof. intros i c Hc. exists c. split; [exact Hc | apply chatExtends_refl]. Qed.

Lemma chatsExtend_trans cs1 cs2 cs3 :
  chatsExtend cs1 cs2 -> chatsExtend cs2 cs3 -> chatsExtend cs1 cs3.
Proof.
  intros H12 H23 i c Hc.
  destruct (H12 i c Hc) as (c2 & Hc2 & He2).
  destruct (H23 i c2 Hc2) as (c3 & Hc3 & He3).
  exists c3. split; [exact Hc3 | eapply chatExtends_trans; eassumption].
Qed.

Lemma chatsExtend_insert (cs : list Chat) j c c' :
  cs !! j = Some c -> chatExtends c c' -> chatsExtend cs (<[j := c']> cs).
Proof.
  intros Hj He i x Hx. destruct (decide (j = i)) as [->|Hne].
  - exists c'. rewrite list_lookup_insert_eq by (eapply lookup_lt_Some; eauto).
    split; [reflexivity|]. congruence.
  - exists x. rewrite list_lookup_insert_ne by done.
    split; [exact Hx | apply chatExtends_refl].
Qed.

Lemma chatsExtend_push (cs : list Chat) c : chatsExtend cs (cs ++ [c]).
Proof.
  intros i x Hx. exists x. split; [|apply chatExtends_refl].
  apply lookup_app_l_Some. exact Hx.
Qed.

Lemma chatsExtend_stopGeneration s s' :
  stopGeneration s = Done s' -> chatsExtend (chats s) (chats s').
Proof.
  unfold stopGeneration, stopUpdater.
  destruct (abortCurrent_requests (clearTimeouts (setLoading false (setIsStopped true s))))
    as [rs ->].
  destruct (JS.truthy (JS.trim (resultData s))).
  - destruct (currentChatIndex s) as [i|]; [|discriminate]. simpl chatAt. simpl chats.
    destruct (chats s !! i) as [chat|] eqn:Hchat; [|discriminate].
    cbn [bindO]. intros [= <-]. simpl.
    eapply chatsExtend_insert; [exact Hchat|].
    repeat split; auto. apply prefix_app_r. reflexivity.
  - cbn [bindO]. intros [= <-]. simpl. apply chatsExtend_refl.
Qed.

Lemma chatsExtend_graphUpdater index q m s s' :
  graphUpdater index q m s = Done s' -> chatsExtend (chats s) (chats s').
Proof.
  unfold graphUpdater. destruct index as [i|].
  - destruct (chats s !! i) as [chat|] eqn:Hchat; [|discriminate].
    intros [= <-]. simpl. eapply chatsExtend_insert; [exact Hchat|].
    repeat split; auto. apply prefix_app_r. reflexivity.
  - intros [= <-]. simpl. apply chatsExtend_push.
Qed.

Lemma chatsExtend_commitGraph index q g s s' :
  commitGraph index q g s = Done s' -> chatsExtend (chats s) (chats s').
Proof.
  unfold commitGraph.
  destruct (graphUpdater _ _ _ _) as [s2|] eqn:Hupd; [|discriminate].
  cbn [bindO]. intros [= <-]. apply chatsExtend_graphUpdater in Hupd. exact Hupd.
Qed.

Lemma chatsExtend_finalizeUpdater index q a m s s' :
  finalizeUpdater index q a m s = Done s' -> chatsExtend (chats s) (chats s').
Proof.
  unfold finalizeUpdater. destruct index as [i|].
  - destruct (chats s !! i) as [chat|] eqn:Hchat; [|discriminate].
    destruct (memoryLimit <=? _); intros [= <-]; simpl;
      (eapply chatsExtend_insert; [exact Hchat|]);
      repeat split; simpl; auto; apply prefix_app_r; reflexivity.
  - destruct (memoryLimit <=? _); intros [= <-]; simpl; apply chatsExtend_push.
Qed.

Lemma chatsExtend_finalize c index q a s s' :
  finalize c index q a s = Done s' -> chatsExtend (chats s) (chats s').
Proof.
  unfold finalize. destruct c; [intros [= <-]; apply chatsExtend_refl|].
  destruct (finalizeUpdater _ _ _ _ _) as [s2|] eqn:Hupd; [|discriminate].
  cbn [bindO]. intros [= <-]. apply chatsExtend_finalizeUpdater in Hupd. exact Hupd.
Qed.

Lemma chats_delayParaLoop c ws : forall i s, chats (delayParaLoop c i ws s) = chats s.
Proof. induction ws as [|w ws IH]; intros i s; [reflexivity|]. simpl. rewrite IH. reflexivity. Qed.

Lemma chatsExtend_fetchSettles id o s s' :
  fetchSettles id o s = Done s' -> chatsExtend (chats s) (chats s').
Proof.
  unfold fetchSettles. destruct (find _ _) as [r|]; [|intros [= <-]; apply chatsExtend_refl].
  unfold resume.
  destruct o as [|[] message gp]; try (intros [= <-]; apply chatsExtend_refl).
  destruct (JS.orNull gp).
  - intros H. apply chatsExtend_commitGraph in H. exact H.
  - destruct (JS.orNull message); intros [= <-]; [|apply chatsExtend_refl].
    unfold playback. simpl. rewrite chats_delayParaLoop. apply chatsExtend_refl.
Qed.

Lemma chatsExtend_runCallbacks ts : forall s s',
  runCallbacks ts s = Done s' -> chatsExtend (chats s) (chats s').
Proof.
  induction ts as [|t ts IH]; intros s s'; simpl.
  - intros [= <-]. apply chatsExtend_refl.
  - destruct (runCallback _ s) as [s1|] eqn:Hcb; [|discriminate]. cbn [bindO].
    intros H. eapply chatsExtend_trans; [|apply IH; exact H].
    destruct (timer_callback t) as [c w|c index q a]; simpl in Hcb.
    + destruct c; injection Hcb as <-; apply chatsExtend_refl.
    + apply chatsExtend_finalize in Hcb. exact Hcb.
Qed.

Lemma chatsExtend_step e s s' : step e s = Done s' -> chatsExtend (chats s) (chats s').
Proof.
  destruct e; simpl; try (intros [= <-]; apply chatsExtend_refl).
  - intros [= <-]. unfold onSent. destruct (currentChatIsFull s); [apply chatsExtend_refl|].
    match goal with |- context [match ?m with _ => _ end] => destruct m end;
      apply chatsExtend_refl.
  - intros [= <-]. unfold handleSend, onSent. simpl.
    destruct (currentChatIsFull s); [apply chatsExtend_refl|].
    match goal with |- context [match ?m with _ => _ end] => destruct m end;
      apply chatsExtend_refl.
  - intros [= <-]. unfold handleKeyPress, handleSend, onSent.
    destruct (_ && _)%bool; [|apply chatsExtend_refl]. simpl.
    destruct (currentChatIsFull s); [apply chatsExtend_refl|].
    match goal with |- context [match ?m with _ => _ end] => destruct m end;
      apply chatsExtend_refl.
  - apply chatsExtend_stopGeneration.
  - unfold openChat. destruct (_ || _)%bool; [intros [= <-]; apply chatsExtend_refl|].
    destruct (chats s !! Z.to_nat index); [|discriminate].
    intros [= <-]. apply chatsExtend_refl.
  - apply chatsExtend_fetchSettles.
  - unfold sleep. intros H. apply chatsExtend_runCallbacks in H. exact H.
Qed.

(** X1. Over any run, from any state, sessions are never deleted or
    reordered: a session stays at its index and keeps its title, its
    messages and its memory are only extended at the end, and a full
    flag that is set stays set. *)
Theorem sessions_only_grow (es : list Event) (s s' : State) :
  run es s = Done s' -> chatsExtend (chats s) (chats s').
Proof.
  revert s. induction es as [|e es IH]; intros s; simpl.
  - intros [= <-]. apply chatsExtend_refl.
  - destruct (step e s) as [s1|] eqn:Hstep; [|discriminate]. cbn [bindO].
    intros H. eapply chatsExtend_trans; [eapply chatsExtend_step; exact Hstep|].
    apply IH. exact H.
Qed.

Lemma sessions_only_grow_witness :
  chatsExtend (chats (stateAfter (exchange 0 "q" "ok"))) (chats (stateAfter tenExchanges)).
Proof.
  apply (sessions_only_grow (flat_map (fun k => exchange (3 * k) "q" "ok") (seq 1 9))).
  vm_compute. reflexivity.
Defined.

(** ** What a stored session looks like *)

Lemma ChatOk_add_message c m :
  ChatOk c -> ChatOk (withMessages c (messages c ++ [m])).
Proof.
  intros [(m0 & ms & Hms & Ht) Hmem Hfull]. constructor; simpl.
  - exists m0, (ms ++ [m]). rewrite Hms. split; [reflexivity | exact Ht].
  - eapply Forall_impl; [exact Hmem|]. simpl. intros e He.
    apply elem_of_app. left. exact He.
  - exact Hfull.
Qed.

Lemma ChatOk_add_exchange c q a (b : bool) :
  ChatOk c ->
  let entry := {| mem_question := q; mem_answer := a |} in
  let c' := withMemory (withMessages c (messages c ++ [messageOf entry])) (memory c ++ [entry]) in
  ChatOk (if memoryLimit <=? length (memory c') then withIsMemoryFull c' true else c').
Proof.
  intros [(m0 & ms & Hms & Ht) Hmem Hfull] entry c'.
  assert (Hmem' : Forall (fun e => messageOf e ∈ messages c ++ [messageOf entry])
                    (memory c ++ [entry])).
  { apply Forall_app. split.
    - eapply Forall_impl; [exact Hmem|]. simpl. intros e He.
      apply elem_of_app. left. exact He.
    - repeat constructor. apply elem_of_app. right. constructor. }
  destruct (memoryLimit <=? length (memory c')) eqn:Hlim; constructor; simpl.
  - exists m0, (ms ++ [messageOf entry]). rewrite Hms. split; [reflexivity | exact Ht].
  - exact Hmem'.
  - apply Nat.leb_le in Hlim. simpl in Hlim. tauto.
  - exists m0, (ms ++ [messageOf entry]). rewrite Hms. split; [reflexivity | exact Ht].
  - exact Hmem'.
  - apply Nat.leb_gt in Hlim. simpl in Hlim. rewrite length_app in *. simpl in *.
    rewrite Hfull. lia.
Qed.

Lemma titles_insert (cs : list Chat) i c c' :
  cs !! i = Some c -> title c' = title c -> title <$> <[i := c']> cs = title <$> cs.
Proof.
  intros Hi Ht. rewrite list_fmap_insert. apply list_insert_id.
  rewrite list_lookup_fmap, Hi, Ht. reflexivity.
Qed.

Ltac ses_fields H :=
  destruct H as [Hprompts Hchats Htim];
  simpl in *; constructor; simpl; try assumption.

Lemma Sessions_stopGeneration s s' : Sessions s -> stopGeneration s = Done s' -> Sessions s'.
Proof.
  intros H. unfold stopGeneration, stopUpdater.
  destruct (abortCurrent_requests (clearTimeouts (setLoading false (setIsStopped true s))))
    as [rs ->].
  unfold clearTimeouts.
  destruct (JS.truthy (JS.trim (resultData s))).
  - destruct (currentChatIndex s) as [i|]; [|discriminate]. simpl chatAt. simpl chats.
    destruct (chats s !! i) as [chat|] eqn:Hchat; [|discriminate].
    cbn [bindO]. intros [= <-]. ses_fields H.
    + rewrite (titles_insert _ _ _ _ Hchat) by reflexivity. exact Hprompts.
    + apply Forall_insert; [exact Hchats|].
      apply ChatOk_add_message. eapply (Forall_lookup_1 _ _ _ _ Hchats Hchat).
    + apply Forall_filter_keep. exact Htim.
  - cbn [bindO]. intros [= <-]. ses_fields H. apply Forall_filter_keep. exact Htim.
Qed.

Lemma Sessions_onSent prompt s : Sessions s -> Sessions (onSent prompt s).
Proof.
  intros H. unfold onSent. destruct (currentChatIsFull s); [exact H|].
  unfold clearTimeouts, catchBlock.
  match goal with |- Sessions (match ?m with _ => _ end) => destruct m end;
    ses_fields H; apply Forall_filter_keep; exact Htim.
Qed.

Lemma Sessions_graphUpdater index q g s s' :
  Sessions s ->
  graphUpdater index q {| question := q; answer := None; graph_path := Some g |} s = Done s' ->
  Sessions s'.
Proof.
  intros H. unfold graphUpdater. destruct index as [i|].
  - destruct (chats s !! i) as [chat|] eqn:Hchat; [|discriminate].
    intros [= <-]. ses_fields H.
    + rewrite (titles_insert _ _ _ _ Hchat) by reflexivity. exact Hprompts.
    + apply Forall_insert; [exact Hchats|].
      apply ChatOk_add_message. eapply (Forall_lookup_1 _ _ _ _ Hchats Hchat).
  - intros [= <-]. ses_fields H.
    + rewrite fmap_app, Hprompts. reflexivity.
    + apply Forall_app. split; [exact Hchats|].
      constructor; [|constructor]. constructor; simpl.
      * eexists; eexists. split; reflexivity.
      * constructor.
      * unfold memoryLimit. split; [discriminate | lia].
Qed.

Lemma Sessions_finalizeUpdater index q a s s' :
  Sessions s ->
  finalizeUpdater index q a {| question := q; answer := Some a; graph_path := None |} s
    = Done s' ->
  Sessions s'.
Proof.
  intros H. unfold finalizeUpdater. destruct index as [i|].
  - destruct (chats s !! i) as [chat|] eqn:Hchat; [|discriminate].
    cbv zeta.
    set (c' := withMemory (withMessages chat _) _).
    assert (Hok : ChatOk (if memoryLimit <=? length (memory c')
                          then withIsMemoryFull c' true else c')).
    { exact (ChatOk_add_exchange chat q a true
               (Forall_lookup_1 _ _ _ _ (ses_chats _ H) Hchat)). }
    destruct (memoryLimit <=? length (memory c')); intros [= <-];
      destruct H as [Hprompts Hchats Htim]; constructor; simpl; try assumption.
    + rewrite (titles_insert _ _ _ _ Hchat) by reflexivity. exact Hprompts.
    + apply Forall_insert; [exact Hchats | exact Hok].
    + rewrite (titles_insert _ _ _ _ Hchat) by reflexivity. exact Hprompts.
    + apply Forall_insert; [exact Hchats | exact Hok].
  - cbv zeta. cbn [memory length]. change (memoryLimit <=? 1) with false. cbv iota.
    intros [= <-]. ses_fields H.
    + rewrite fmap_app, Hprompts. reflexivity.
    + apply Forall_app. split; [exact Hchats|]. constructor; [|constructor].
      constructor; simpl.
      * eexists; eexists. split; reflexivity.
      * constructor; [|constructor]. constructor.
      * unfold memoryLimit. split; [discriminate | lia].
Qed.

Lemma Sessions_finalize c index q a s s' :
  Sessions s -> finalize c index q a s = Done s' -> Sessions s'.
Proof.
  intros H. unfold finalize. destruct c; [intros [= <-]; exact H|].
  destruct (finalizeUpdater _ _ _ _ _) as [s2|] eqn:Hupd; [|discriminate].
  cbn [bindO]. intros [= <-]. apply Sessions_finalizeUpdater in Hupd.
  - ses_fields Hupd.
  - ses_fields H.
Qed.

Lemma Sessions_commitGraph index q g s s' :
  Sessions s -> commitGraph index q g s = Done s' -> Sessions s'.
Proof.
  intros H. unfold commitGraph.
  destruct (graphUpdater _ _ _ _) as [s2|] eqn:Hupd; [|discriminate].
  cbn [bindO]. intros [= <-]. apply Sessions_graphUpdater in Hupd.
  - ses_fields Hupd.
  - ses_fields H.
Qed.

Lemma wordTimers_callbacks c t0 ws : forall id i,
  Forall (fun t => match timer_callback t with
                   | Reveal c' _ => c' = c
                   | Finalize c' _ _ _ => c' = c
                   end) (wordTimers c t0 id i ws).
Proof.
  induction ws as [|w ws IH]; intros id i; simpl; constructor; [reflexivity | apply IH].
Qed.

Lemma Sessions_playback index q a s :
  Sessions s -> Sessions (playback false index q a s).
Proof.
  intros H. unfold playback. rewrite delayParaLoop_eq. unfold setTimeout.
  ses_fields H. rewrite <- app_assoc. apply Forall_app. split; [exact Htim|].
  apply Forall_app. split; [apply wordTimers_callbacks|]. repeat constructor.
Qed.

Lemma Sessions_fetchSettles id o s s' :
  Inv s -> Sessions s -> fetchSettles id o s = Done s' -> Sessions s'.
Proof.
  intros HI H. unfold fetchSettles.
  destruct (find _ _) as [r|] eqn:Hfind; [|intros [= <-]; exact H].
  assert (Hr : request_isStopped r = false).
  { apply find_some in Hfind as [Hin _].
    pose proof (inv_request_not_stopped _ HI) as Hall.
    rewrite Forall_forall in Hall. apply Hall. apply list_elem_of_In. exact Hin. }
  assert (H1 : Sessions (set_requests (filter (fun r => request_id r ≠ id) (requests s)) s)).
  { ses_fields H. }
  revert H1. generalize (set_requests (filter (fun r => request_id r ≠ id) (requests s)) s).
  intros x Hx. unfold resume.
  destruct o as [|[] message gp];
    try (intros [= <-]; unfold catchBlock; ses_fields Hx).
  destruct (JS.orNull gp).
  - apply Sessions_commitGraph, Hx.
  - destruct (JS.orNull message); intros [= <-].
    + rewrite Hr. apply Sessions_playback, Hx.
    + unfold catchBlock. ses_fields Hx.
Qed.

Lemma Sessions_runCallbacks ts : forall s s',
  Forall (fun t => match timer_callback t with
                   | Reveal c _ => c = false
                   | Finalize c _ _ _ => c = false
                   end) ts ->
  Sessions s -> runCallbacks ts s = Done s' -> Sessions s'.
Proof.
  induction ts as [|t ts IH]; intros s s' Hts H; simpl.
  - intros [= <-]. exact H.
  - destruct (runCallback _ s) as [s1|] eqn:Hcb; [|discriminate]. cbn [bindO].
    inversion Hts as [|? ? Ht Hts']; subst.
    apply IH; [exact Hts'|].
    destruct (timer_callback t) as [c w|c index q a]; simpl in Hcb.
    + destruct c; injection Hcb as <-; [exact H|]. ses_fields H.
    + eapply Sessions_finalize; eauto.
Qed.

Lemma Sessions_sleep d s s' : Sessions s -> sleep d s = Done s' -> Sessions s'.
Proof.
  intros H. unfold sleep. apply Sessions_runCallbacks.
  - apply Forall_forall. intros t Ht.
    pose proof (ses_timers _ H) as Hall. rewrite Forall_forall in Hall. apply Hall.
    unfold fireOrder in Ht.
    assert (Hsub : forall (l : list Timer) x, x ∈ foldr insertByDue [] l -> x ∈ l).
    { induction l as [|u l IHl]; intros x Hx; [exact Hx|]. simpl in Hx.
      assert (Hins : forall ts, x ∈ insertByDue u ts -> x = u \/ x ∈ ts).
      { induction ts as [|v ts IHts]; simpl; intros Hin.
        - apply list_elem_of_singleton in Hin. left. exact Hin.
        - destruct (timer_due v <? timer_due u).
          + apply elem_of_cons in Hin as [->|Hin]; [right; constructor|].
            destruct (IHts Hin) as [->|Hin']; [left; reflexivity|].
            right. apply elem_of_cons. right. exact Hin'.
          + apply elem_of_cons in Hin as [->|Hin]; [left; reflexivity | right; exact Hin]. }
      destruct (Hins _ Hx) as [->|Hx']; [constructor|].
      apply elem_of_cons. right. apply IHl. exact Hx'. }
    apply Hsub in Ht. apply list_elem_of_filter in Ht as [_ Ht]. exact Ht.
  - ses_fields H. apply Forall_filter_keep. exact Htim.
Qed.

Lemma Sessions_step e s s' : Inv s -> Sessions s -> step e s = Done s' -> Sessions s'.
Proof.
  intros HI H. destruct e; simpl; try (intros [= <-]).
  - ses_fields H.
  - apply Sessions_onSent, H.
  - unfold handleSend. pose proof (Sessions_onSent None s H) as H1. ses_fields H1.
  - unfold handleKeyPress, handleSend. destruct (_ && _)%bool; [|exact H].
    pose proof (Sessions_onSent None s H) as H1. ses_fields H1.
  - apply Sessions_stopGeneration, H.
  - unfold newChat. ses_fields H.
  - unfold openChat. destruct (_ || _)%bool; [intros [= <-]; exact H|].
    destruct (chats s !! Z.to_nat index); [|discriminate].
    intros [= <-]. ses_fields H.
  - unfold toggleThinkingMode. ses_fields H.
  - apply Sessions_fetchSettles; assumption.
  - apply Sessions_sleep, H.
Qed.

Lemma Sessions_run es : forall s s',
  Inv s -> Sessions s -> run es s = Done s' -> Sessions s'.
Proof.
  induction es as [|e es IH]; intros s s' HI H; simpl.
  - intros [= <-]. exact H.
  - destruct (step e s) as [s1|] eqn:Hstep; [|discriminate]. cbn [bindO].
    apply IH; [eapply Inv_step; eauto | eapply Sessions_step; eauto].
Qed.

Lemma reachable_Sessions s : reachable s -> Sessions s.
Proof.
  intros [es Hes]. eapply Sessions_run; [apply Inv_init | | exact Hes].
  constructor; simpl; constructor.
Qed.

Lemma substring0_length n : forall s, String.length (JS.substring0 n s) <= n.
Proof.
  unfold JS.substring0. induction n as [|n IH]; intros s.
  - destruct s; simpl; lia.
  - destruct s as [|c s]; simpl; [lia|]. specialize (IH s). lia.
Qed.

(** X2. In every reachable state the sidebar lists exactly the stored
    sessions, entry [i] showing the title of session [i]; a click on
    any entry is therefore in range: it makes that session the active
    one, shows its messages and takes over its full flag, switches
    loading off, and changes no session. *)
Theorem sidebar_entry_opens_its_session (s : State) (i : nat) (item : string) :
  reachable s -> prevPrompts s !! i = Some item ->
  prevPrompts s = title <$> chats s
  /\ exists chat s',
       chats s !! i = Some chat /\ title chat = item
       /\ openChat (Z.of_nat i) s = Done s'
       /\ currentChatIndex s' = Some i
       /\ conversationHistory s' = messages chat
       /\ currentChatIsFull s' = isMemoryFull chat
       /\ loading s' = false /\ resultData s' = EmptyString
       /\ chats s' = chats s /\ prevPrompts s' = prevPrompts s.
Proof.
  intros Hs Hitem. pose proof (ses_prompts _ (reachable_Sessions s Hs)) as Hp.
  split; [exact Hp|].
  rewrite Hp, list_lookup_fmap in Hitem.
  destruct (chats s !! i) as [chat|] eqn:Hchat; [|discriminate].
  injection Hitem as Ht. exists chat. eexists.
  split; [reflexivity|]. split; [exact Ht|].
  unfold openChat. rewrite Nat2Z.id, Hchat.
  pose proof (lookup_lt_Some _ _ _ Hchat) as Hlt.
  destruct (Z.of_nat i <? 0)%Z eqn:H0; [lia|].
  destruct (Z.of_nat (length (chats s)) <=? Z.of_nat i)%Z eqn:H1; [lia|].
  simpl. repeat split; reflexivity.
Qed.

Lemma sidebar_entry_opens_its_session_witness :
  exists chat s',
    chats (stateAfter twoSessions) !! 0 = Some chat /\ title chat = "a"%string
    /\ openChat 0 (stateAfter twoSessions) = Done s'
    /\ conversationHistory s' = messages chat.
Proof.
  destruct (sidebar_entry_opens_its_session (stateAfter twoSessions) 0 "a")
    as (_ & chat & s' & Hchat & Ht & Hopen & _ & Hh & _).
  - exists twoSessions. vm_compute. reflexivity.
  - vm_compute. reflexivity.
  - exists chat, s'. repeat split; assumption.
Defined.

(** X3. In every reachable state no stored session is empty, and its
    title is the first 20 characters of the question of its first
    message; the title has at most 20 characters and its sidebar label
    at most 21. *)
Theorem session_title_is_first_question (s : State) (c : Chat) :
  reachable s -> c ∈ chats s ->
  (exists m ms, messages c = m :: ms /\ title c = JS.substring0 20 (question m))
  /\ String.length (title c) <= 20
  /\ String.length (sidebarLabel (title c)) <= 21.
Proof.
  intros Hs Hc. pose proof (ses_chats _ (reachable_Sessions s Hs)) as Hall.
  rewrite Forall_forall in Hall. destruct (Hall c Hc) as [(m & ms & Hms & Ht) _ _].
  split; [exists m, ms; split; assumption|].
  split; [rewrite Ht; apply substring0_length|].
  unfold sidebarLabel.
  assert (Happ : forall a b, String.length (a +:+ b) = String.length a + String.length b).
  { induction a as [|x a IH]; intros b; [reflexivity|].
    change (S (String.length (a +:+ b)) = S (String.length a) + String.length b).
    rewrite IH. reflexivity. }
  rewrite Happ. pose proof (substring0_length 18 (title c)). simpl. lia.
Qed.

Lemma session_title_is_first_question_witness :
  exists m ms c,
    chats (stateAfter tenExchanges) = [c]
    /\ messages c = m :: ms /\ title c = JS.substring0 20 (question m).
Proof.
  assert (Hc : exists c, chats (stateAfter tenExchanges) = [c]).
  { eexists. vm_compute. reflexivity. }
  destruct Hc as [c Hc].
  destruct (session_title_is_first_question (stateAfter tenExchanges) c)
    as ((m & ms & Hms & Ht) & _).
  - exists tenExchanges. vm_compute. reflexivity.
  - rewrite Hc. constructor.
  - exists m, ms, c. repeat split; assumption.
Defined.

Lemma memoryKept_refl cs : memoryKept cs cs.
Proof. intros i c Hc. rewrite Hc. reflexivity. Qed.

Lemma memoryKept_insert (cs : list Chat) j c c' :
  cs !! j = Some c -> memory c' = memory c -> memoryKept cs (<[j := c']> cs).
Proof.
  intros Hj Hm i x Hx. destruct (decide (j = i)) as [->|Hne].
  - rewrite list_lookup_insert_eq in Hx by (eapply lookup_lt_Some; eauto).
    injection Hx as <-. rewrite Hj. exact Hm.
  - rewrite list_lookup_insert_ne in Hx by done. rewrite Hx. reflexivity.
Qed.

Lemma memoryKept_push (cs : list Chat) c : memory c = [] -> memoryKept cs (cs ++ [c]).
Proof.
  intros Hm i x Hx. destruct (cs !! i) as [y|] eqn:Hy.
  - rewrite (lookup_app_l_Some _ _ _ _ Hy) in Hx. injection Hx as <-. reflexivity.
  - apply lookup_ge_None in Hy. rewrite lookup_app_r in Hx by exact Hy.
    apply list_lookup_singleton_Some in Hx as [_ <-]. exact Hm.
Qed.

Lemma memoryKept_stopGeneration s s' :
  stopGeneration s = Done s' -> memoryKept (chats s) (chats s').
Proof.
  unfold stopGeneration, stopUpdater.
  destruct (abortCurrent_requests (clearTimeouts (setLoading false (setIsStopped true s))))
    as [rs ->].
  destruct (JS.truthy (JS.trim (resultData s))).
  - destruct (currentChatIndex s) as [i|]; [|discriminate]. simpl chatAt. simpl chats.
    destruct (chats s !! i) as [chat|] eqn:Hchat; [|discriminate].
    cbn [bindO]. intros [= <-]. simpl.
    eapply memoryKept_insert; [exact Hchat | reflexivity].
  - cbn [bindO]. intros [= <-]. simpl. apply memoryKept_refl.
Qed.

Lemma memoryKept_commitGraph index q g s s' :
  commitGraph index q g s = Done s' -> memoryKept (chats s) (chats s').
Proof.
  unfold commitGraph, graphUpdater. destruct index as [i|].
  - simpl chats. destruct (chats s !! i) as [chat|] eqn:Hchat; [|discriminate].
    cbn [bindO]. intros [= <-]. simpl.
    eapply memoryKept_insert; [exact Hchat | reflexivity].
  - cbn [bindO]. intros [= <-]. simpl. apply memoryKept_push. reflexivity.
Qed.

Lemma memoryKept_fetchSettles id o s s' :
  fetchSettles id o s = Done s' -> memoryKept (chats s) (chats s').
Proof.
  unfold fetchSettles. destruct (find _ _) as [r|]; [|intros [= <-]; apply memoryKept_refl].
  unfold resume.
  destruct o as [|[] message gp]; try (intros [= <-]; apply memoryKept_refl).
  destruct (JS.orNull gp).
  - intros H. apply memoryKept_commitGraph in H. exact H.
  - destruct (JS.orNull message); intros [= <-]; [|apply memoryKept_refl].
    unfold playback. simpl. rewrite chats_delayParaLoop. apply memoryKept_refl.
Qed.

Lemma memoryKept_onSent prompt s : memoryKept (chats s) (chats (onSent prompt s)).
Proof.
  unfold onSent. destruct (currentChatIsFull s); [apply memoryKept_refl|].
  match goal with |- context [match ?m with _ => _ end] => destruct m end;
    apply memoryKept_refl.
Qed.

Lemma memoryKept_step e s s' :
  (forall d, e <> Sleep d) -> step e s = Done s' -> memoryKept (chats s) (chats s').
Proof.
  intros Hne. destruct e; simpl; try (intros [= <-]; apply memoryKept_refl).
  - intros [= <-]. apply memoryKept_onSent.
  - intros [= <-]. exact (memoryKept_onSent None s).
  - intros [= <-]. unfold handleKeyPress.
    destruct (_ && _)%bool; [exact (memoryKept_onSent None s) | apply memoryKept_refl].
  - apply memoryKept_stopGeneration.
  - unfold openChat. destruct (_ || _)%bool; [intros [= <-]; apply memoryKept_refl|].
    destruct (chats s !! Z.to_nat index); [|discriminate].
    intros [= <-]. apply memoryKept_refl.
  - apply memoryKept_fetchSettles.
  - destruct (Hne d eq_refl).
Qed.

(** X4. In every reachable state every memory entry of a session is
    the question and the answer of one of that session's text messages.
    Memory is written by the finalize timer of a playback only: every
    event other than the passing of time leaves each session with the
    memory it had, and a session created by it has none.  In particular
    a stop that stores the partial answer as a message of the active
    session changes no memory, and a chart message never enters it. *)
Theorem memory_entries_are_messages (s : State) :
  reachable s ->
  (forall c e, c ∈ chats s -> e ∈ memory c ->
     {| question := mem_question e; answer := Some (mem_answer e); graph_path := None |}
       ∈ messages c)
  /\ (forall ev s', (forall d, ev <> Sleep d) -> step ev s = Done s' ->
        memoryKept (chats s) (chats s'))
  /\ (forall i chat, currentChatIndex s = Some i -> chats s !! i = Some chat ->
        JS.truthy (JS.trim (resultData s)) = true ->
        exists s',
          stopGeneration s = Done s'
          /\ chats s'
             = <[i := withMessages chat
                        (messages chat
                           ++ [{| question := recentPrompt s; answer := Some (resultData s);
                                  graph_path := None |}])]> (chats s)
          /\ memory <$> chats s' = memory <$> chats s).
Proof.
  intros Hs. split; [|split].
  - intros c e Hc He. pose proof (ses_chats _ (reachable_Sessions s Hs)) as Hall.
    rewrite Forall_forall in Hall. destruct (Hall c Hc) as [_ Hmem _].
    rewrite Forall_forall in Hmem. exact (Hmem e He).
  - intros ev s'. apply memoryKept_step.
  - intros i chat Hi Hchat Htext.
    destruct (stopGeneration_spec s i chat (reachable_Inv s Hs) Hi Hchat)
      as (s' & Hstop & _ & _ & _ & Hmem & Hcommit).
    rewrite Htext in Hcommit. destruct Hcommit as [Hchats _].
    exists s'. split; [exact Hstop|]. split; [exact Hchats | exact Hmem].
Qed.

Lemma memory_entries_are_messages_witness :
  let s := stateAfter (exchange 0 "q" "ok"
                         ++ [SetInput "b"; HandleSend; FetchSettles 3 (textResponse "x y");
                             Sleep 0]) in
  exists s',
    stopGeneration s = Done s'
    /\ memory <$> chats s' = memory <$> chats s
    /\ memoryKept (chats s) (chats s').
Proof.
  intros s.
  assert (Hs : reachable s).
  { exists (exchange 0 "q" "ok"
              ++ [SetInput "b"; HandleSend; FetchSettles 3 (textResponse "x y"); Sleep 0]).
    vm_compute. reflexivity. }
  destruct (memory_entries_are_messages s Hs) as (_ & Hkept & Hstop).
  destruct (Hstop 0 {| title := "q";
                       messages := [{| question := "q"; answer := Some "ok"%string;
                                       graph_path := None |}];
                       memory := [{| mem_question := "q"; mem_answer := "ok" |}];
                       isMemoryFull := false |})
    as (s' & Hrun & _ & Hmem); [vm_compute; reflexivity ..|].
  exists s'. split; [exact Hrun|]. split; [exact Hmem|].
  apply (Hkept StopGeneration s'); [discriminate | exact Hrun].
Defined.

(** X5. In every reachable state, also after overlapping exchanges, a
    session's [isMemoryFull] flag is set exactly when its memory has
    reached [memoryLimit] entries. *)
Theorem full_flag_tells_memory_length (s : State) (c : Chat) :
  reachable s -> c ∈ chats s ->
  (isMemoryFull c = true <-> memoryLimit <= length (memory c)).
Proof.
  intros Hs Hc. pose proof (ses_chats _ (reachable_Sessions s Hs)) as Hall.
  rewrite Forall_forall in Hall. destruct (Hall c Hc) as [_ _ Hfull]. exact Hfull.
Qed.

Lemma full_flag_tells_memory_length_witness :
  exists c,
    chats (stateAfter twoInFlight) = [c]
    /\ (isMemoryFull c = true <-> memoryLimit <= length (memory c)).
Proof.
  assert (Hc : exists c, chats (stateAfter twoInFlight) = [c]).
  { eexists. vm_compute. reflexivity. }
  destruct Hc as [c Hc]. exists c. split; [exact Hc|].
  apply (full_flag_tells_memory_length (stateAfter twoInFlight)).
  - exists twoInFlight. vm_compute. reflexivity.
  - rewrite Hc. constructor.
Defined.

(** X6. The flag [isStopped] is false in every reachable state, and
    every pending timer and every pending request was created while it
    was false: the tests of [isStopped] in the timer functions never
    hold anything back, a timer is only ever stopped by
    [clearTimeout]. *)
Theorem isStopped_never_observed_true (s : State) :
  reachable s ->
  isStopped s = false
  /\ Forall (fun r => request_isStopped r = false) (requests s)
  /\ Forall (fun t => match timer_callback t with
                      | Reveal c _ => c = false
                      | Finalize c _ _ _ => c = false
                      end) (timers s).
Proof.
  intros Hs. split; [|split].
  - apply (inv_not_stopped _ (reachable_Inv s Hs)).
  - apply (inv_request_not_stopped _ (reachable_Inv s Hs)).
  - apply (ses_timers _ (reachable_Sessions s Hs)).
Qed.

Lemma isStopped_never_observed_true_witness :
  isStopped hiThere = false
  /\ Forall (fun t => match timer_callback t with
                      | Reveal c _ => c = false
                      | Finalize c _ _ _ => c = false
                      end) (timers hiThere).
Proof.
  destruct (isStopped_never_observed_true hiThere) as (H1 & _ & H3).
  - exists helloWorld. vm_compute. reflexivity.
  - split; assumption.
Defined.

(** ** One exchange at a time: the memory bound *)

Lemma keepsRoom_refl cs : keepsRoom cs cs.
Proof. intros i c Hc. right. exists c. split; [exact Hc | reflexivity]. Qed.

Lemma keepsRoom_insert (cs : list Chat) j c c' :
  cs !! j = Some c -> memory c' = memory c -> keepsRoom cs (<[j := c']> cs).
Proof.
  intros Hj Hm i x Hx. right. destruct (decide (j = i)) as [->|Hne].
  - rewrite list_lookup_insert_eq in Hx by (eapply lookup_lt_Some; eauto).
    injection Hx as <-. exists c. split; assumption.
  - rewrite list_lookup_insert_ne in Hx by done. exists x. split; [exact Hx | reflexivity].
Qed.

Lemma keepsRoom_push (cs : list Chat) c :
  length (memory c) < memoryLimit -> keepsRoom cs (cs ++ [c]).
Proof.
  intros Hc i x Hx. destruct (decide (i < length cs)) as [Hlt|Hge].
  - rewrite lookup_app_l in Hx by exact Hlt. right. exists x. split; [exact Hx | reflexivity].
  - rewrite lookup_app_r in Hx by lia.
    destruct (i - length cs) as [|n]; simpl in Hx; [|discriminate].
    injection Hx as <-. left. exact Hc.
Qed.

Lemma timerHasRoom_keeps cs cs' t :
  keepsRoom cs cs' -> timerHasRoom cs t -> timerHasRoom cs' t.
Proof.
  unfold timerHasRoom. intros Hk.
  destruct (timer_callback t) as [|c [i|] q a]; try exact id.
  intros H c' Hc'. destruct (Hk i c' Hc') as [Hlt|(c0 & Hc0 & ->)]; [exact Hlt|].
  apply H. exact Hc0.
Qed.

Lemma requestHasRoom_keeps cs cs' r :
  keepsRoom cs cs' -> requestHasRoom cs r -> requestHasRoom cs' r.
Proof.
  unfold requestHasRoom. intros Hk.
  destruct (request_currentChatIndex r) as [i|]; [|exact id].
  intros H c' Hc'. destruct (Hk i c' Hc') as [Hlt|(c0 & Hc0 & ->)]; [exact Hlt|].
  apply H. exact Hc0.
Qed.

Lemma bound_insert (cs : list Chat) j c' :
  length (memory c') <= memoryLimit ->
  Forall (fun c => length (memory c) <= memoryLimit) cs ->
  Forall (fun c => length (memory c) <= memoryLimit) (<[j := c']> cs).
Proof. intros Hc H. apply Forall_insert; assumption. Qed.

(** The callbacks never touch the event loop. *)
Lemma runCallbacks_loop ts : forall s s',
  runCallbacks ts s = Done s' -> requests s' = requests s /\ timers s' = timers s.
Proof.
  induction ts as [|t ts IH]; intros s s'; simpl.
  - intros [= <-]. split; reflexivity.
  - destruct (runCallback _ s) as [s1|] eqn:Hcb; [|discriminate]. cbn [bindO].
    intros H. destruct (IH _ _ H) as [-> ->]. clear H IH.
    destruct (timer_callback t) as [c w|c index q a]; simpl in Hcb.
    + destruct c; injection Hcb as <-; split; reflexivity.
    + revert Hcb. unfold finalize, finalizeUpdater. destruct c; [intros [= <-]; split; reflexivity|].
      destruct index as [i|].
      * simpl chats. destruct (chats s !! i); [|discriminate].
        destruct (memoryLimit <=? _); cbn [bindO]; intros [= <-]; split; reflexivity.
      * destruct (memoryLimit <=? _); cbn [bindO]; intros [= <-]; split; reflexivity.
Qed.

(** Token timers alone leave the sessions as they are. *)
Lemma finalizeCount_cons t ts :
  finalizeCount (t :: ts) = (if isFinalize t then 1 else 0) + finalizeCount ts.
Proof.
  unfold finalizeCount. rewrite filter_cons.
  destruct (isFinalize t); destruct (decide _); try congruence; reflexivity.
Qed.

Lemma runCallbacks_reveals ts : forall s s',
  finalizeCount ts = 0 -> runCallbacks ts s = Done s' -> chats s' = chats s.
Proof.
  induction ts as [|t ts IH]; intros s s' Hn; simpl.
  - intros [= <-]. reflexivity.
  - destruct (runCallback _ s) as [s1|] eqn:Hcb; [|discriminate]. cbn [bindO].
    rewrite finalizeCount_cons in Hn. unfold isFinalize in Hn.
    destruct (timer_callback t) as [c w|c index q a] eqn:Ht; simpl in Hcb; [|lia].
    intros H. rewrite (IH _ _ Hn H).
    destruct c; injection Hcb as <-; reflexivity.
Qed.

Lemma bound_finalize c index q a s s' :
  (forall i chat, index = Some i -> chats s !! i = Some chat ->
                  length (memory chat) < memoryLimit) ->
  Forall (fun c => length (memory c) <= memoryLimit) (chats s) ->
  finalize c index q a s = Done s' ->
  Forall (fun c => length (memory c) <= memoryLimit) (chats s').
Proof.
  intros Hroom Hb. unfold finalize, finalizeUpdater. destruct c; [intros [= <-]; exact Hb|].
  destruct index as [i|].
  - simpl chats. destruct (chats s !! i) as [chat|] eqn:Hchat; [|discriminate].
    pose proof (Hroom i chat eq_refl Hchat) as Hlt.
    destruct (memoryLimit <=? _); cbn [bindO]; intros [= <-]; simpl;
      apply bound_insert; try exact Hb; simpl; rewrite length_app; simpl;
      unfold memoryLimit in *; lia.
  - destruct (memoryLimit <=? _); cbn [bindO]; intros [= <-]; simpl;
      (apply Forall_app; split; [exact Hb|]); repeat constructor; simpl;
      unfold memoryLimit; lia.
Qed.

Lemma bound_runCallbacks ts : forall s s',
  finalizeCount ts <= 1 ->
  Forall (timerHasRoom (chats s)) ts ->
  Forall (fun c => length (memory c) <= memoryLimit) (chats s) ->
  runCallbacks ts s = Done s' ->
  Forall (fun c => length (memory c) <= memoryLimit) (chats s').
Proof.
  induction ts as [|t ts IH]; intros s s' Hn Hroom Hb; simpl.
  - intros [= <-]. exact Hb.
  - destruct (runCallback _ s) as [s1|] eqn:Hcb; [|discriminate]. cbn [bindO].
    inversion Hroom as [|? ? Ht Hts]; subst.
    rewrite finalizeCount_cons in Hn. unfold isFinalize in Hn.
    unfold timerHasRoom in Ht.
    destruct (timer_callback t) as [c w|c index q a] eqn:Hcallback; simpl in Hcb.
    + assert (Hc : chats s1 = chats s) by (destruct c; injection Hcb as <-; reflexivity).
      apply IH; [exact Hn | rewrite Hc; exact Hts | rewrite Hc; exact Hb].
    + intros H. rewrite (runCallbacks_reveals ts _ _ ltac:(lia) H).
      eapply bound_finalize; [|exact Hb|exact Hcb].
      intros i chat -> Hchat. exact (Ht chat Hchat).
Qed.

Lemma fireOrder_elem (l : list Timer) x : x ∈ fireOrder l -> x ∈ l.
Proof.
  unfold fireOrder. induction l as [|u l IHl]; intros Hx; [exact Hx|]. simpl in Hx.
  assert (Hins : forall ts, x ∈ insertByDue u ts -> x = u \/ x ∈ ts).
  { induction ts as [|v ts IHts]; simpl; intros Hin.
    - apply list_elem_of_singleton in Hin. left. exact Hin.
    - destruct (timer_due v <? timer_due u).
      + apply elem_of_cons in Hin as [->|Hin]; [right; constructor|].
        destruct (IHts Hin) as [->|Hin']; [left; reflexivity|].
        right. apply elem_of_cons. right. exact Hin'.
      + apply elem_of_cons in Hin as [->|Hin]; [left; reflexivity | right; exact Hin]. }
  destruct (Hins _ Hx) as [->|Hx']; [constructor|].
  apply elem_of_cons. right. apply IHl. exact Hx'.
Qed.

Lemma finalizeCount_insertByDue t ts :
  finalizeCount (insertByDue t ts) = finalizeCount (t :: ts).
Proof.
  induction ts as [|u ts IH]; [reflexivity|]. simpl.
  destruct (timer_due u <? timer_due t); [|reflexivity].
  rewrite !finalizeCount_cons in *. lia.
Qed.

Lemma finalizeCount_fireOrder ts : finalizeCount (fireOrder ts) = finalizeCount ts.
Proof.
  unfold fireOrder. induction ts as [|t ts IH]; [reflexivity|]. simpl.
  rewrite finalizeCount_insertByDue, !finalizeCount_cons. lia.
Qed.

Lemma finalizeCount_split (P : Timer -> Prop) `{forall t, Decision (P t)} ts :
  finalizeCount ts
  = finalizeCount (filter P ts) + finalizeCount (filter (fun t => ~ P t) ts).
Proof.
  induction ts as [|t ts IH]; [reflexivity|].
  rewrite (filter_cons P), (filter_cons (fun t => ~ P t)).
  destruct (decide (P t)), (decide (~ P t)); try tauto;
    rewrite !finalizeCount_cons; lia.
Qed.

Lemma finalizeCount_0 ts :
  finalizeCount ts = 0 -> forall cs, Forall (timerHasRoom cs) ts.
Proof.
  intros Hn cs. induction ts as [|t ts IH]; constructor;
    rewrite finalizeCount_cons in Hn; unfold isFinalize in Hn.
  - unfold timerHasRoom. destruct (timer_callback t); [exact I | lia].
  - apply IH. lia.
Qed.

Lemma finalizeCount_app ts1 ts2 :
  finalizeCount (ts1 ++ ts2) = finalizeCount ts1 + finalizeCount ts2.
Proof. unfold finalizeCount. rewrite filter_app, length_app. reflexivity. Qed.

Lemma finalizeCount_wordTimers c t0 ws : forall id i,
  finalizeCount (wordTimers c t0 id i ws) = 0.
Proof.
  induction ws as [|w ws IH]; intros id i; [reflexivity|].
  simpl. rewrite finalizeCount_cons, IH. reflexivity.
Qed.

Lemma finalizeCount_filter (P : Timer -> Prop) `{forall t, Decision (P t)} ts :
  finalizeCount (filter P ts) <= finalizeCount ts.
Proof. rewrite (finalizeCount_split P ts). lia. Qed.

Lemma active_has_room prompt s :
  Inv s -> Sessions s -> currentChatIsFull s = false ->
  requestHasRoom (chats s) (requestOf prompt s).
Proof.
  intros HI HS Hfull. unfold requestHasRoom, requestOf. simpl.
  destruct (currentChatIndex s) as [i|] eqn:Hi; [|exact I].
  intros c Hc.
  destruct (le_lt_dec memoryLimit (length (memory c))) as [Hle|Hlt]; [|exact Hlt].
  pose proof (Forall_lookup_1 _ _ _ _ (ses_chats _ HS) Hc) as [_ _ Hok].
  apply Hok in Hle.
  pose proof (inv_sync _ HI c) as Hsync. rewrite Hi in Hsync.
  specialize (Hsync Hc Hle). congruence.
Qed.

Ltac ser_fields H :=
  destruct H as [Hbound Hone Htroom Hrroom];
  simpl in *; constructor; simpl; try assumption.

Lemma Serial_onSent prompt s :
  Inv s -> Sessions s -> Serial s -> requests s = [] -> Serial (onSent prompt s).
Proof.
  intros HI HS H Hreq. destruct (currentChatIsFull s) eqn:Hfull.
  - unfold onSent. rewrite Hfull. exact H.
  - rewrite onSent_sending by assumption.
    pose proof (active_has_room prompt s HI HS Hfull) as Hroom.
    destruct H as [Hbound Hone Htroom Hrroom]. constructor; simpl.
    + exact Hbound.
    + rewrite Hreq. simpl. reflexivity.
    + constructor.
    + rewrite Hreq. simpl. constructor; [exact Hroom | constructor].
Qed.

Lemma abortCurrent_fewer x :
  exists rs, abortCurrent x = set_requests rs x
             /\ length rs <= length (requests x)
             /\ forall P : Request -> Prop, Forall P (requests x) -> Forall P rs.
Proof.
  unfold abortCurrent. destruct (abortControllerRef x) as [id|].
  - eexists. split; [reflexivity|]. split.
    + apply length_filter.
    + intros P HP. apply Forall_filter_keep. exact HP.
  - exists (requests x). split; [destruct x; reflexivity|]. split; [lia | auto].
Qed.

Lemma Serial_stopGeneration s s' :
  Inv s -> Serial s -> stopGeneration s = Done s' -> Serial s'.
Proof.
  intros HI H. unfold stopGeneration, stopUpdater.
  rewrite clearTimeouts_tracked by exact (inv_tracked _ HI).
  destruct (abortCurrent_fewer
              (set_timeoutRefs [] (set_timers [] (setLoading false (setIsStopped true s)))))
    as (rs & -> & Hlen & Hrs).
  simpl in Hlen, Hrs.
  destruct (JS.truthy (JS.trim (resultData s))).
  - destruct (currentChatIndex s) as [i|]; [|discriminate]. simpl chatAt. simpl chats.
    destruct (chats s !! i) as [chat|] eqn:Hchat; [|discriminate].
    cbn [bindO]. intros [= <-].
    assert (Hk : keepsRoom (chats s)
                   (<[i := withMessages chat (messages chat ++
                      [{| question := recentPrompt s; answer := Some (resultData s);
                          graph_path := None |}])]> (chats s))).
    { eapply keepsRoom_insert; [exact Hchat | reflexivity]. }
    destruct H as [Hbound Hone Htroom Hrroom]. constructor; simpl.
    + apply bound_insert; [|exact Hbound]. simpl.
      exact (Forall_lookup_1 _ _ _ _ Hbound Hchat).
    + unfold finalizeCount. simpl. lia.
    + constructor.
    + apply Hrs. eapply Forall_impl; [exact Hrroom|]. simpl.
      intros r. apply requestHasRoom_keeps. exact Hk.
  - cbn [bindO]. intros [= <-].
    destruct H as [Hbound Hone Htroom Hrroom]. constructor; simpl.
    + exact Hbound.
    + unfold finalizeCount. simpl. lia.
    + constructor.
    + apply Hrs. exact Hrroom.
Qed.

Lemma Serial_commitGraph index q g x x' :
  Serial x -> commitGraph index q g x = Done x' -> Serial x'.
Proof.
  intros H. unfold commitGraph, graphUpdater. destruct index as [i|].
  - simpl chats. destruct (chats x !! i) as [chat|] eqn:Hchat; [|discriminate].
    cbn [bindO]. intros [= <-].
    assert (Hk : keepsRoom (chats x)
                   (<[i := withMessages chat (messages chat ++
                      [{| question := q; answer := None; graph_path := Some g |}])]>
                      (chats x))).
    { eapply keepsRoom_insert; [exact Hchat | reflexivity]. }
    destruct H as [Hbound Hone Htroom Hrroom]. constructor; simpl.
    + apply bound_insert; [|exact Hbound]. simpl.
      exact (Forall_lookup_1 _ _ _ _ Hbound Hchat).
    + exact Hone.
    + eapply Forall_impl; [exact Htroom|]. simpl.
      intros t. apply timerHasRoom_keeps. exact Hk.
    + eapply Forall_impl; [exact Hrroom|]. simpl.
      intros r. apply requestHasRoom_keeps. exact Hk.
  - cbn [bindO]. intros [= <-].
    set (c := {| title := JS.substring0 20 q;
                 messages := [{| question := q; answer := None; graph_path := Some g |}];
                 memory := []; isMemoryFull := false |}).
    assert (Hk : keepsRoom (chats x) (chats x ++ [c])).
    { apply keepsRoom_push. simpl. unfold memoryLimit. lia. }
    destruct H as [Hbound Hone Htroom Hrroom]. constructor; simpl.
    + apply Forall_app. split; [exact Hbound|].
      constructor; [simpl; lia | constructor].
    + exact Hone.
    + eapply Forall_impl; [exact Htroom|]. simpl.
      intros t. apply timerHasRoom_keeps. exact Hk.
    + eapply Forall_impl; [exact Hrroom|]. simpl.
      intros r. apply requestHasRoom_keeps. exact Hk.
Qed.

Lemma Serial_catchBlock q x : Serial x -> Serial (catchBlock q x).
Proof. intros [Hbound Hone Htroom Hrroom]. constructor; simpl; assumption. Qed.

Lemma Serial_fetchSettles id o s s' :
  Serial s -> fetchSettles id o s = Done s' -> Serial s'.
Proof.
  intros H. unfold fetchSettles.
  destruct (find _ _) as [r|] eqn:Hfind; [|intros [= <-]; exact H].
  apply find_some in Hfind as [Hin Hid]. apply Nat.eqb_eq in Hid.
  pose proof (ser_one _ H) as Hone.
  destruct (requests s) as [|r0 [|r1 rs]] eqn:Hreq; simpl in Hone, Hin; [tauto| |lia].
  destruct Hin as [->|[]].
  rewrite filter_cons_False by (intros Hne; apply Hne; exact Hid). rewrite filter_nil.
  assert (Hcount : finalizeCount (timers s) = 0) by lia.
  assert (Hroom : requestHasRoom (chats s) r).
  { pose proof (ser_requests _ H) as Hall. rewrite Hreq in Hall.
    inversion Hall; assumption. }
  assert (Hx : Serial (set_requests [] s)).
  { destruct H as [Hbound _ Htroom _]. constructor; simpl; try assumption; [lia|constructor]. }
  unfold resume.
  destruct o as [|[] message gp];
    try (intros [= <-]; apply Serial_catchBlock, Hx).
  destruct (JS.orNull gp).
  - apply Serial_commitGraph, Hx.
  - destruct (JS.orNull message) as [a|]; intros [= <-]; [|apply Serial_catchBlock, Hx].
    unfold playback. rewrite delayParaLoop_eq. unfold setTimeout.
    destruct H as [Hbound _ Htroom _]. constructor; simpl.
    + exact Hbound.
    + rewrite !finalizeCount_app, finalizeCount_wordTimers, Hcount. reflexivity.
    + rewrite <- app_assoc. apply Forall_app. split; [exact Htroom|].
      apply Forall_app. split; [apply finalizeCount_0, finalizeCount_wordTimers|].
      constructor; [|constructor]. exact Hroom.
    + constructor.
Qed.

Lemma Serial_sleep d s s' : Serial s -> sleep d s = Done s' -> Serial s'.
Proof.
  intros H. unfold sleep. intros Hrun.
  set (t := now s + d) in *.
  set (due := filter (fun x => timer_due x <= t) (timers s)) in *.
  set (later := filter (fun x => ~ timer_due x <= t) (timers s)) in *.
  set (x := set_now t (set_timers later s)) in *.
  destruct (runCallbacks_loop _ _ _ Hrun) as [Hreq Htim].
  change (requests x) with (requests s) in Hreq.
  change (timers x) with later in Htim.
  destruct H as [Hbound Hone Htroom Hrroom].
  assert (Hsplit : finalizeCount (timers s) = finalizeCount due + finalizeCount later).
  { apply (finalizeCount_split (fun x => timer_due x <= t)). }
  assert (Hdue : Forall (timerHasRoom (chats x)) (fireOrder due)).
  { apply Forall_forall. intros y Hy. apply fireOrder_elem in Hy.
    apply list_elem_of_filter in Hy as [_ Hy].
    rewrite Forall_forall in Htroom. apply Htroom. exact Hy. }
  assert (Hb' : Forall (fun c => length (memory c) <= memoryLimit) (chats s')).
  { apply (bound_runCallbacks (fireOrder due) x s'); [|exact Hdue|exact Hbound|exact Hrun].
    rewrite finalizeCount_fireOrder. lia. }
  assert (Hsame : finalizeCount due = 0 -> chats s' = chats s).
  { intros Hn. apply (runCallbacks_reveals (fireOrder due) x s'); [|exact Hrun].
    rewrite finalizeCount_fireOrder. exact Hn. }
  constructor.
  - exact Hb'.
  - rewrite Hreq, Htim. lia.
  - rewrite Htim. destruct (finalizeCount due) as [|n] eqn:Hn.
    + rewrite (Hsame eq_refl). apply Forall_filter_keep. exact Htroom.
    + apply finalizeCount_0. lia.
  - rewrite Hreq. destruct (finalizeCount due) as [|n] eqn:Hn.
    + rewrite (Hsame eq_refl). exact Hrroom.
    + destruct (requests s); [constructor | simpl in Hone; lia].
Qed.

Lemma Serial_step e s s' :
  Inv s -> Sessions s -> Serial s -> (sends e = true -> requests s = []) ->
  step e s = Done s' -> Serial s'.
Proof.
  intros HI HS H Hserial. destruct e; simpl in *; try (intros [= <-]).
  - ser_fields H.
  - apply Serial_onSent; auto.
  - unfold handleSend. pose proof (Serial_onSent None s HI HS H (Hserial eq_refl)) as H1.
    ser_fields H1.
  - unfold handleKeyPress, handleSend. destruct (_ && _)%bool; [|exact H].
    pose proof (Serial_onSent None s HI HS H (Hserial eq_refl)) as H1. ser_fields H1.
  - apply Serial_stopGeneration; assumption.
  - unfold newChat. ser_fields H.
  - unfold openChat. destruct (_ || _)%bool; [intros [= <-]; exact H|].
    destruct (chats s !! Z.to_nat index); [|discriminate].
    intros [= <-]. ser_fields H.
  - unfold toggleThinkingMode. ser_fields H.
  - apply Serial_fetchSettles, H.
  - apply Serial_sleep, H.
Qed.

Lemma Serial_runSerial es : forall s s',
  Inv s -> Sessions s -> Serial s -> runSerial es s = Some (Done s') -> Serial s'.
Proof.
  induction es as [|e es IH]; intros s s' HI HS H; simpl.
  - intros [= <-]. exact H.
  - destruct (sends e && negb (bool_decide (requests s = []))) eqn:Hguard; [discriminate|].
    destruct (step e s) as [s1|] eqn:Hstep; [|discriminate].
    apply IH.
    + eapply Inv_step; eauto.
    + eapply Sessions_step; eauto.
    + eapply Serial_step; eauto. intros He. rewrite He in Hguard. simpl in Hguard.
      apply negb_false_iff, bool_decide_eq_true in Hguard. exact Hguard.
Qed.

(** X7. When no question is sent while a request is still pending, no
    session's memory ever holds more than [memoryLimit] entries,
    whatever else happens in between (stops, new chats, switches,
    failures, charts, time passing). *)
Theorem serial_runs_keep_memory_bound (es : list Event) (s : State) (c : Chat) :
  runSerial es init = Some (Done s) -> c ∈ chats s ->
  length (memory c) <= memoryLimit.
Proof.
  intros Hrun Hc.
  assert (H : Serial s).
  { eapply Serial_runSerial; [apply Inv_init | | | exact Hrun].
    - constructor; simpl; constructor.
    - constructor; simpl; try constructor. unfold finalizeCount. simpl. lia. }
  pose proof (ser_bound _ H) as Hall. rewrite Forall_forall in Hall. apply Hall, Hc.
Qed.

Lemma serial_runs_keep_memory_bound_witness :
  exists c,
    chats (stateAfter tenExchanges) = [c] /\ length (memory c) <= memoryLimit.
Proof.
  assert (Hc : exists c, chats (stateAfter tenExchanges) = [c]).
  { eexists. vm_compute. reflexivity. }
  destruct Hc as [c Hc]. exists c. split; [exact Hc|].
  apply (serial_runs_keep_memory_bound tenExchanges (stateAfter tenExchanges)).
  - vm_compute. reflexivity.
  - rewrite Hc. constructor.
Defined.

(** ** Stopping *)

Lemma stopGeneration_blank s :
  Inv s -> JS.truthy (JS.trim (resultData s)) = false ->
  stopGeneration s
  = Done (setInput (recentPrompt s)
            (setIsStopped false
               (setResultData EmptyString
                  (abortCurrent
                     (set_timeoutRefs []
                        (set_timers [] (setLoading false (setIsStopped true s)))))))).
Proof.
  intros H Hblank. unfold stopGeneration. rewrite Hblank.
  rewrite clearTimeouts_tracked by exact (inv_tracked _ H). reflexivity.
Qed.

Lemma sleep_idle d x : timers x = [] -> sleep d x = Done (set_now (now x + d) x).
Proof.
  intros Ht. unfold sleep. rewrite Ht. simpl. destruct x. simpl in *. subst. reflexivity.
Qed.

(** X8. In every reachable state in which [stopGeneration] returns, it
    leaves no timer pending and no request wired to the current abort
    controller; loading is off, the display is empty and the input box
    holds the pending question.  Time passing afterwards changes
    nothing but the clock, and a second stop changes nothing at all. *)
Theorem stop_leaves_nothing_pending (s s' : State) :
  reachable s -> stopGeneration s = Done s' ->
  timers s' = [] /\ timeoutRefs s' = []
  /\ Forall (fun r => Some (request_id r) <> abortControllerRef s') (requests s')
  /\ loading s' = false /\ resultData s' = EmptyString /\ isStopped s' = false
  /\ input s' = recentPrompt s
  /\ (forall d, sleep d s' = Done (set_now (now s' + d) s'))
  /\ stopGeneration s' = Done s'.
Proof.
  intros Hs Hstop.
  assert (Hs' : Inv s').
  { eapply Inv_stopGeneration; [apply reachable_Inv; exact Hs | exact Hstop]. }
  apply reachable_Inv in Hs. revert Hstop. unfold stopGeneration, stopUpdater.
  rewrite clearTimeouts_tracked by exact (inv_tracked _ Hs).
  set (x := set_timeoutRefs [] _).
  assert (Hab : exists rs, abortCurrent x = set_requests rs x
                  /\ Forall (fun r => Some (request_id r) <> abortControllerRef s) rs
                  /\ (abortControllerRef s = None -> rs = requests s)).
  { unfold abortCurrent. change (abortControllerRef x) with (abortControllerRef s).
    change (requests x) with (requests s).
    destruct (abortControllerRef s) as [id|].
    - eexists. split; [reflexivity|]. split; [|discriminate].
      apply Forall_forall. intros r Hr. apply list_elem_of_filter in Hr as [Hne _].
      congruence.
    - exists (requests s). split; [subst x; destruct s; reflexivity|].
      split; [|reflexivity]. apply Forall_forall. intros r _. discriminate. }
  destruct Hab as (rs & -> & Hrs & _).
  assert (Hgoal : forall y,
            timers y = [] -> timeoutRefs y = [] -> requests y = rs ->
            abortControllerRef y = abortControllerRef s ->
            loading y = false -> resultData y = EmptyString -> isStopped y = false ->
            input y = recentPrompt s -> recentPrompt y = recentPrompt s ->
            Inv y ->
            timers y = [] /\ timeoutRefs y = []
            /\ Forall (fun r => Some (request_id r) <> abortControllerRef y) (requests y)
            /\ loading y = false /\ resultData y = EmptyString /\ isStopped y = false
            /\ input y = recentPrompt s
            /\ (forall d, sleep d y = Done (set_now (now y + d) y))
            /\ stopGeneration y = Done y).
  { intros y Ht Hr Hq Ha Hl Hd Hst Hin Hrp Hy.
    repeat (split; [first [assumption | rewrite Hq, Ha; exact Hrs]|]).
    split; [intros d; apply sleep_idle; exact Ht|].
    rewrite stopGeneration_blank by (try exact Hy; rewrite Hd; reflexivity).
    f_equal. unfold abortCurrent. simpl. rewrite Ha.
    assert (Hf : match abortControllerRef s with
                 | Some id => filter (fun r => request_id r ≠ id) (requests y)
                 | None => requests y
                 end = requests y).
    { destruct (abortControllerRef s) as [id|]; [|reflexivity].
      apply filter_all. rewrite Hq. eapply Forall_impl; [exact Hrs|].
      simpl. intros r Hne Heq. apply Hne. congruence. }
    destruct y; simpl in *; subst.
    destruct (abortControllerRef s); simpl; rewrite ?Hf; reflexivity. }
  destruct (JS.truthy (JS.trim (resultData s))).
  - destruct (currentChatIndex s) as [i|]; [|discriminate]. simpl chatAt. simpl chats.
    destruct (chats s !! i) as [chat|]; [|discriminate].
    cbn [bindO]. intros [= <-]. apply Hgoal; try reflexivity. exact Hs'.
  - cbn [bindO]. intros [= <-]. apply Hgoal; try reflexivity. exact Hs'.
Qed.

Lemma stop_leaves_nothing_pending_witness :
  exists s',
    stopGeneration (stateAfter twoSessions) = Done s'
    /\ timers s' = [] /\ stopGeneration s' = Done s'.
Proof.
  assert (Hstop : exists s', stopGeneration (stateAfter twoSessions) = Done s').
  { eexists. vm_compute. reflexivity. }
  destruct Hstop as [s' Hstop]. exists s'. split; [exact Hstop|].
  destruct (stop_leaves_nothing_pending (stateAfter twoSessions) s')
    as (Ht & _ & _ & _ & _ & _ & _ & _ & Hagain).
  - exists twoSessions. vm_compute. reflexivity.
  - exact Hstop.
  - split; assumption.
Defined.

(** X9. From every reachable state that accepts a question: typing
    [q], clicking send and stopping before the answer arrives puts [q]
    back into the input box, withdraws the request and records
    nothing; whatever the service answers afterwards has no effect. *)
Theorem send_then_stop_restores_question (s : State) (q : string) :
  reachable s -> currentChatIsFull s = false ->
  exists s',
    run [SetInput q; HandleSend; StopGeneration] s = Done s'
    /\ input s' = q /\ loading s' = false
    /\ requests s' = requests s /\ timers s' = []
    /\ chats s' = chats s /\ conversationHistory s' = conversationHistory s
    /\ currentChatIndex s' = currentChatIndex s
    /\ forall o, fetchSettles (nextId s) o s' = Done s'.
Proof.
  intros Hs Hfull. apply reachable_Inv in Hs.
  assert (H1 : Inv (setInput q s)).
  { apply (Inv_step (SetInput q) s); [exact Hs | reflexivity]. }
  assert (H2 : Inv (handleSend (setInput q s))) by (apply Inv_handleSend, H1).
  cbn [run step bindO].
  rewrite stopGeneration_blank.
  - cbn [bindO]. unfold handleSend in *. rewrite onSent_sending in * by assumption.
    unfold abortCurrent. simpl abortControllerRef. cbv iota. simpl requests.
    rewrite (filter_request_last _ _ _ (inv_request_ids _ Hs)) by reflexivity.
    eexists. split; [reflexivity|]. simpl.
    repeat (split; [reflexivity|]).
    intros o. unfold fetchSettles. simpl.
    assert (Hnone : find (fun r => request_id r =? nextId s) (requests s) = None).
    { pose proof (inv_request_ids _ Hs) as Hall.
      induction Hall as [|r rs Hr _ IH]; [reflexivity|]. simpl.
      destruct (request_id r =? nextId s) eqn:Heq; [|exact IH].
      apply Nat.eqb_eq in Heq. lia. }
    rewrite Hnone. reflexivity.
  - exact H2.
  - unfold handleSend. rewrite onSent_sending by assumption. reflexivity.
Qed.

Lemma send_then_stop_restores_question_witness :
  exists s',
    run [SetInput "b"; HandleSend; StopGeneration] (stateAfter (exchange 0 "q" "ok")) = Done s'
    /\ input s' = "b"%string
    /\ chats s' = chats (stateAfter (exchange 0 "q" "ok")).
Proof.
  destruct (send_then_stop_restores_question (stateAfter (exchange 0 "q" "ok")) "b")
    as (s' & Hrun & Hin & _ & _ & _ & Hchats & _).
  - exists (exchange 0 "q" "ok"). vm_compute. reflexivity.
  - vm_compute. reflexivity.
  - exists s'. repeat split; assumption.
Defined.

(** ** Switching and starting over *)

(** X10. A switch overwrites whatever an earlier switch or a new chat
    set up: opening session [i] after opening any session [j] gives the
    state that opening [i] directly gives, and after a new chat it
    gives that state with thinking mode switched off; neither changes
    the stored sessions or the sidebar. *)
Theorem openChat_forgets_previous_view (s s1 : State) (i j : Z) :
  (0 <= i < Z.of_nat (length (chats s)))%Z -> openChat j s = Done s1 ->
  openChat i s1 = openChat i s
  /\ openChat i (newChat s) = bindO (openChat i s) (fun x => Done (setIsThinkingMode false x))
  /\ chats s1 = chats s /\ prevPrompts s1 = prevPrompts s
  /\ chats (newChat s) = chats s /\ prevPrompts (newChat s) = prevPrompts s.
Proof.
  intros Hi Hj.
  assert (Hguard : ((i <? 0) || (Z.of_nat (length (chats s)) <=? i))%Z = false).
  { apply orb_false_iff. split; [apply Z.ltb_ge | apply Z.leb_gt]; lia. }
  destruct (lookup_lt_is_Some_2 (chats s) (Z.to_nat i) ltac:(lia)) as [chat Hchat].
  assert (H1 : chats s1 = chats s /\ prevPrompts s1 = prevPrompts s
               /\ openChat i s1 = openChat i s).
  { revert Hj. unfold openChat at 1.
    destruct ((j <? 0) || (Z.of_nat (length (chats s)) <=? j))%Z.
    { intros Heq. assert (Hs1 : s1 = s) by congruence. subst s1. repeat split. }
    destruct (chats s !! Z.to_nat j) as [cj|]; [|discriminate].
    intros Heq. injection Heq as Hs1. subst s1.
    split; [reflexivity|]. split; [reflexivity|].
    unfold openChat. simpl chats. rewrite Hguard, Hchat. reflexivity. }
  destruct H1 as (Hc & Hp & Ho).
  repeat split; try assumption.
  unfold openChat, newChat. simpl chats. rewrite Hguard, Hchat. reflexivity.
Qed.

Lemma openChat_forgets_previous_view_witness :
  openChat 0 (stateAfter (twoSessions ++ [OpenChat 1])) = openChat 0 (stateAfter twoSessions).
Proof.
  destruct (openChat_forgets_previous_view (stateAfter twoSessions)
              (stateAfter (twoSessions ++ [OpenChat 1])) 0 1) as (H & _).
  - vm_compute. split; [discriminate | reflexivity].
  - vm_compute. reflexivity.
  - exact H.
Defined.

(** ** Complete exchanges *)

Lemma split_nonempty a : 1 <= length (JS.split a).
Proof.
  induction a as [|c a IH]; simpl; [lia|].
  destruct (Ascii.eqb c " "); simpl; [lia|].
  destruct (JS.split a); simpl in *; lia.
Qed.

(** X11. The first completed text exchange without an active session
    creates the session: it is appended to the sessions with the first
    20 characters of the question as its title, the exchange as its
    only message and only memory entry and the full flag unset, it
    becomes the active session and gets its sidebar entry; the
    exchange is shown, and the page is idle with an empty input box. *)
Theorem first_exchange_creates_session (s : State) (prompt : option string) (a : string) :
  reachable s -> currentChatIsFull s = false -> currentChatIndex s = None ->
  JS.truthy a = true ->
  let q := userQueryOf prompt s in
  let newMessage := {| question := q; answer := Some a; graph_path := None |} in
  exists s',
    run [OnSent prompt; FetchSettles (nextId s) (textResponse a);
         Sleep (75 * length (JS.split a) + 100)] s = Done s'
    /\ chats s'
       = chats s ++ [{| title := JS.substring0 20 q; messages := [newMessage];
                        memory := [{| mem_question := q; mem_answer := a |}];
                        isMemoryFull := false |}]
    /\ currentChatIndex s' = Some (length (chats s))
    /\ prevPrompts s' = prevPrompts s ++ [JS.substring0 20 q]
    /\ conversationHistory s' = conversationHistory s ++ [newMessage]
    /\ currentChatIsFull s' = false
    /\ loading s' = false /\ resultData s' = EmptyString /\ input s' = EmptyString
    /\ timers s' = [] /\ requests s' = requests s.
Proof.
  intros Hs Hfull Hnone Ha q newMessage. apply reachable_Inv in Hs.
  cbn [run step bindO].
  rewrite onSent_sending by assumption. cbn [bindO].
  rewrite text_response_playing by assumption. cbn [bindO].
  rewrite sleep_playing_complete, bindO_Done.
  unfold finalize, finalizeUpdater. rewrite Hnone.
  cbv zeta. cbn [memory length]. change (memoryLimit <=? 1) with false. cbv iota.
  cbn [bindO]. eexists. split; [reflexivity|]. simpl.
  rewrite length_app. simpl. rewrite Nat.add_sub.
  repeat split; reflexivity.
Qed.

Lemma first_exchange_creates_session_witness :
  exists s',
    run [OnSent (Some "hello world"%string); FetchSettles 0 (textResponse "hi there");
         Sleep (75 * length (JS.split "hi there") + 100)] init = Done s'
    /\ currentChatIndex s' = Some 0
    /\ prevPrompts s' = ["hello world"%string].
Proof.
  destruct (first_exchange_creates_session init (Some "hello world"%string) "hi there")
    as (s' & Hrun & _ & Hidx & Hp & _); try reflexivity.
  - exists []. reflexivity.
  - exists s'. repeat split; assumption.
Defined.

Lemma onSent_full p x : currentChatIsFull x = true -> onSent p x = x.
Proof. intros H. unfold onSent. rewrite H. reflexivity. Qed.

(** X12. A completed text exchange in an active session changes that
    session only: the exchange is appended to its messages and to its
    memory and nothing else is stored or listed anew.  The session is
    marked full, and the page with it, exactly when the memory
    thereby reaches [memoryLimit]; from then on a send is rejected. *)
Theorem later_exchange_extends_session (s : State) (prompt : option string) (a : string)
    (i : nat) (chat : Chat) :
  reachable s -> currentChatIsFull s = false ->
  currentChatIndex s = Some i -> chats s !! i = Some chat ->
  JS.truthy a = true ->
  let q := userQueryOf prompt s in
  let newMessage := {| question := q; answer := Some a; graph_path := None |} in
  let full := memoryLimit <=? length (memory chat) + 1 in
  exists s',
    run [OnSent prompt; FetchSettles (nextId s) (textResponse a);
         Sleep (75 * length (JS.split a) + 100)] s = Done s'
    /\ chats s'
       = <[i := {| title := title chat;
                   messages := messages chat ++ [newMessage];
                   memory := memory chat ++ [{| mem_question := q; mem_answer := a |}];
                   isMemoryFull := full |}]> (chats s)
    /\ currentChatIsFull s' = full
    /\ (full = true -> forall p, onSent p s' = s')
    /\ currentChatIndex s' = Some i /\ prevPrompts s' = prevPrompts s
    /\ conversationHistory s' = conversationHistory s ++ [newMessage]
    /\ loading s' = false /\ resultData s' = EmptyString /\ input s' = EmptyString
    /\ timers s' = [] /\ requests s' = requests s.
Proof.
  intros Hs Hfull Hi Hchat Ha q newMessage full.
  pose proof (reachable_Sessions s Hs) as HS. apply reachable_Inv in Hs.
  assert (Hflag : isMemoryFull chat = false).
  { destruct (isMemoryFull chat) eqn:Hf; [|reflexivity].
    pose proof (inv_sync _ Hs chat) as Hsync. rewrite Hi in Hsync.
    specialize (Hsync Hchat Hf). congruence. }
  cbn [run step bindO].
  rewrite onSent_sending by assumption. cbn [bindO].
  rewrite text_response_playing by assumption. cbn [bindO].
  rewrite sleep_playing_complete, bindO_Done.
  unfold finalize, finalizeUpdater. rewrite Hi. simpl chats. rewrite Hchat.
  cbv zeta. cbn [memory withMemory withMessages].
  rewrite length_app. cbn [length]. fold full.
  destruct full eqn:Hfullness; cbn [bindO]; (eexists; split; [reflexivity|]).
  - split; [reflexivity|]. split; [reflexivity|].
    split; [intros _ p; apply onSent_full; reflexivity|].
    split; [exact Hi|]. repeat (split; [reflexivity|]). reflexivity.
  - split; [simpl; unfold withMemory, withMessages; simpl; rewrite Hflag; reflexivity|].
    split; [reflexivity|]. split; [discriminate|].
    split; [exact Hi|]. repeat (split; [reflexivity|]). reflexivity.
Qed.

Lemma later_exchange_extends_session_witness :
  exists s',
    run [OnSent (Some "b"%string); FetchSettles 3 (textResponse "hi there");
         Sleep (75 * length (JS.split "hi there") + 100)]
      (stateAfter (exchange 0 "q" "ok")) = Done s'
    /\ currentChatIndex s' = Some 0
    /\ conversationHistory s'
       = conversationHistory (stateAfter (exchange 0 "q" "ok"))
           ++ [{| question := "b"; answer := Some "hi there"%string; graph_path := None |}].
Proof.
  edestruct (later_exchange_extends_session (stateAfter (exchange 0 "q" "ok"))
               (Some "b"%string) "hi there" 0)
    as (s' & Hrun & _ & _ & _ & Hidx & _ & Hh & _).
  - exists (exchange 0 "q" "ok"). vm_compute. reflexivity.
  - vm_compute. reflexivity.
  - vm_compute. reflexivity.
  - vm_compute. reflexivity.
  - vm_compute. reflexivity.
  - exists s'. repeat split; assumption.
Defined.

(** X13. A response that carries a chart path is committed at once,
    whatever its [message] is: no timer is set, loading is off and the
    input box is empty.  Without an active session a session with
    empty memory is created for it and made active; with one, the
    chart message is appended to that session's messages and no
    session's memory changes. *)
Theorem chart_exchange_skips_playback_and_memory (s : State) (prompt : option string)
    (message : option string) (g : string) :
  reachable s -> currentChatIsFull s = false -> JS.truthy g = true ->
  let q := userQueryOf prompt s in
  let newMessage := {| question := q; answer := None; graph_path := Some g |} in
  exists s',
    run [OnSent prompt; FetchSettles (nextId s) (Response true message (Some g))] s = Done s'
    /\ timers s' = [] /\ requests s' = requests s
    /\ loading s' = false /\ resultData s' = EmptyString /\ input s' = EmptyString
    /\ currentChatIsFull s' = false
    /\ conversationHistory s' = conversationHistory s ++ [newMessage]
    /\ (currentChatIndex s = None ->
        chats s'
        = chats s ++ [{| title := JS.substring0 20 q; messages := [newMessage];
                         memory := []; isMemoryFull := false |}]
        /\ currentChatIndex s' = Some (length (chats s))
        /\ prevPrompts s' = prevPrompts s ++ [JS.substring0 20 q])
    /\ (forall i chat, currentChatIndex s = Some i -> chats s !! i = Some chat ->
        chats s' = <[i := withMessages chat (messages chat ++ [newMessage])]> (chats s)
        /\ memory <$> chats s' = memory <$> chats s
        /\ currentChatIndex s' = Some i /\ prevPrompts s' = prevPrompts s).
Proof.
  intros Hs Hfull Hg q newMessage. apply reachable_Inv in Hs.
  cbn [run step bindO].
  rewrite onSent_sending by assumption. cbn [bindO].
  rewrite fetchSettles_sending by assumption.
  unfold resume. destruct g as [|c g]; [discriminate|].
  cbn [JS.orNull JS.truthy]. rewrite bindO_Done.
  unfold commitGraph, graphUpdater. cbn [request_currentChatIndex requestOf].
  destruct (currentChatIndex s) as [i|] eqn:Hi.
  - destruct (lookup_lt_is_Some_2 (chats s) i (inv_index _ Hs i Hi)) as [chat Hchat].
    simpl chats. rewrite Hchat. cbn [bindO]. eexists. split; [reflexivity|]. simpl.
    repeat (split; [reflexivity|]). split; [discriminate|].
    intros i' chat' [= <-] Hchat'. rewrite Hchat in Hchat'. injection Hchat' as <-.
    repeat split; try reflexivity; try assumption.
    apply memory_insert_withMessages, Hchat.
  - cbn [bindO]. eexists. split; [reflexivity|]. simpl.
    rewrite length_app. simpl. rewrite Nat.add_sub.
    repeat (split; [reflexivity|]). split; [|discriminate].
    intros _. repeat split; reflexivity.
Qed.

Lemma chart_exchange_skips_playback_and_memory_witness :
  exists s',
    run [OnSent (Some "plot"%string);
         FetchSettles 3 (Response true (Some "text"%string) (Some "static/g.png"%string))]
      (stateAfter (exchange 0 "q" "ok")) = Done s'
    /\ timers s' = []
    /\ memory <$> chats s' = memory <$> chats (stateAfter (exchange 0 "q" "ok")).
Proof.
  destruct (chart_exchange_skips_playback_and_memory (stateAfter (exchange 0 "q" "ok"))
              (Some "plot"%string) (Some "text"%string) "static/g.png")
    as (s' & Hrun & Ht & _ & _ & _ & _ & _ & _ & _ & Hsome).
  - exists (exchange 0 "q" "ok"). vm_compute. reflexivity.
  - vm_compute. reflexivity.
  - reflexivity.
  - edestruct (Hsome 0) as (_ & Hmem & _).
    + vm_compute. reflexivity.
    + vm_compute. reflexivity.
    + exists s'. repeat split; assumption.
Defined.

(** X14. A response that is [ok] but carries neither a message nor a
    chart path (each [null] or empty) ends like a failure: splitting
    the missing message raises inside the [try] block, and the
    exchange is shown with the apology as its answer; nothing is
    stored and no timer is set. *)
Theorem empty_response_apologises (s : State) (prompt : option string)
    (message gp : option string) :
  reachable s -> currentChatIsFull s = false ->
  JS.orNull message = None -> JS.orNull gp = None ->
  let q := userQueryOf prompt s in
  exists s',
    run [OnSent prompt; FetchSettles (nextId s) (Response true message gp)] s = Done s'
    /\ conversationHistory s'
       = conversationHistory s
           ++ [{| question := q; answer := Some apology; graph_path := None |}]
    /\ loading s' = false /\ timers s' = [] /\ requests s' = requests s
    /\ chats s' = chats s /\ currentChatIndex s' = currentChatIndex s.
Proof.
  intros Hs Hfull Hm Hg q. apply reachable_Inv in Hs.
  cbn [run step bindO].
  rewrite onSent_sending by assumption. cbn [bindO].
  rewrite fetchSettles_sending by assumption.
  unfold resume. rewrite Hm, Hg.
  eexists. split; [reflexivity|]. simpl. repeat split; reflexivity.
Qed.

Lemma empty_response_apologises_witness :
  exists s',
    run [OnSent (Some "b"%string); FetchSettles 0 (Response true (Some EmptyString) None)] init
      = Done s'
    /\ conversationHistory s'
       = [{| question := "b"; answer := Some apology; graph_path := None |}].
Proof.
  destruct (empty_response_apologises init (Some "b"%string) (Some EmptyString) None)
    as (s' & Hrun & Hh & _); try reflexivity.
  - exists []. reflexivity.
  - exists s'. split; [exact Hrun | exact Hh].
Defined.

(** ** What the playback shows *)

Lemma append_cons c (s1 s2 : string) : String c s1 +:+ s2 = String c (s1 +:+ s2).
Proof. reflexivity. Qed.

Lemma wordsText_split a : wordsText (JS.split a) = a +:+ " ".
Proof.
  induction a as [|c a IH]; [reflexivity|]. simpl JS.split.
  destruct (Ascii.eqb c " ") eqn:Hc.
  - apply Ascii.eqb_eq in Hc. subst c.
    change (wordsText (EmptyString :: JS.split a))
      with ((EmptyString +:+ " ") +:+ wordsText (JS.split a)).
    rewrite IH. reflexivity.
  - destruct (JS.split a) as [|w ws] eqn:Hsplit.
    + pose proof (split_nonempty a) as Hn. rewrite Hsplit in Hn. simpl in Hn. lia.
    + change (wordsText (String c w :: ws))
        with ((String c w +:+ " ") +:+ wordsText ws).
      rewrite !append_cons. f_equal. exact IH.
Qed.

Lemma wordTimers_due_last c t0 ws : forall id i,
  Forall (fun t => timer_due t + 75 <= t0 + 75 * (i + length ws)) (wordTimers c t0 id i ws).
Proof.
  induction ws as [|w ws IH]; intros id i; simpl; constructor.
  - simpl. lia.
  - eapply Forall_impl; [apply IH|]. simpl. intros t Ht. lia.
Qed.

(** X15. The tokens of an answer, each followed by a space, add up to
    the answer followed by one space: once the last token timer has
    fired, and until the commit 175 ms later, the display shows the
    whole answer with a trailing space, loading is still on and
    nothing is committed yet. *)
Theorem playback_shows_whole_answer (s : State) (prompt : option string) (a : string) :
  reachable s -> currentChatIsFull s = false -> JS.truthy a = true ->
  revealedText (length (JS.split a)) a = a +:+ " "
  /\ exists s1,
       run [OnSent prompt; FetchSettles (nextId s) (textResponse a);
            Sleep (75 * (length (JS.split a) - 1))] s = Done s1
       /\ resultData s1 = a +:+ " "
       /\ loading s1 = true
       /\ chats s1 = chats s /\ conversationHistory s1 = conversationHistory s
       /\ map timer_due (timers s1) = [now s + (75 * length (JS.split a) + 100)].
Proof.
  intros Hs Hfull Ha. apply reachable_Inv in Hs.
  pose proof (split_nonempty a) as Hn.
  assert (Htext : revealedText (length (JS.split a)) a = a +:+ " ").
  { unfold revealedText. rewrite take_ge by lia. apply wordsText_split. }
  split; [exact Htext|].
  cbn [run step bindO].
  rewrite onSent_sending by assumption. cbn [bindO].
  rewrite text_response_playing by assumption. cbn [bindO].
  rewrite sleep_playing_tokens by lia. cbn [bindO].
  replace (S (length (JS.split a) - 1)) with (length (JS.split a)) by lia.
  eexists. split; [reflexivity|]. simpl.
  split; [exact Htext|]. repeat (split; [reflexivity|]).
  rewrite filter_app.
  rewrite (filter_none (fun t => timer_due t <= now s + 75 * (length (JS.split a) - 1))).
  - rewrite filter_cons_True by (unfold finalizeTimer; simpl; lia). reflexivity.
  - eapply Forall_impl; [apply wordTimers_due_last|]. simpl. intros t Ht. lia.
Qed.

Lemma playback_shows_whole_answer_witness :
  exists s1,
    run [OnSent (Some "hello world"%string); FetchSettles 0 (textResponse "hi there");
         Sleep (75 * (length (JS.split "hi there") - 1))] init = Done s1
    /\ resultData s1 = "hi there "%string.
Proof.
  destruct (playback_shows_whole_answer init (Some "hello world"%string) "hi there")
    as (_ & s1 & Hrun & Htext & _).
  - exists []. reflexivity.
  - reflexivity.
  - reflexivity.
  - exists s1. split; [exact Hrun | exact Htext].
Defined.

(** ** What is sent to the service *)

(** X16. From every reachable state that accepts a question, [onSent]
    issues exactly one request: it carries the question, the thinking
    mode flag of the moment and the whole memory of the active session,
    or an empty memory when no session is active.  Requests issued
    earlier stay pending, nothing is shown or stored yet, and every
    timer of an earlier playback is cancelled. *)
Theorem request_carries_session_memory (s : State) (prompt : option string) :
  reachable s -> currentChatIsFull s = false ->
  exists r,
    requests (onSent prompt s) = requests s ++ [r]
    /\ request_id r = nextId s
    /\ Forall (fun r' => request_id r' <> request_id r) (requests s)
    /\ query (request_body r) = userQueryOf prompt s
    /\ body_isThinkingMode (request_body r) = isThinkingMode s
    /\ chatMemory (request_body r)
       = match activeChat s with Some c => memory c | None => [] end
    /\ (currentChatIndex s = None -> chatMemory (request_body r) = [])
    /\ timers (onSent prompt s) = []
    /\ loading (onSent prompt s) = true
    /\ recentPrompt (onSent prompt s) = userQueryOf prompt s
    /\ conversationHistory (onSent prompt s) = conversationHistory s
    /\ chats (onSent prompt s) = chats s.
Proof.
  intros Hs Hfull. apply reachable_Inv in Hs.
  rewrite onSent_sending by assumption.
  exists (requestOf prompt s). simpl.
  repeat (split; [reflexivity|]).
  split.
  { eapply Forall_impl; [exact (inv_request_ids _ Hs)|]. simpl. intros r Hr. lia. }
  repeat (split; [reflexivity|]).
  split; [|repeat split; reflexivity].
  intros Hnone. unfold activeChat. rewrite Hnone. reflexivity.
Qed.

Lemma request_carries_session_memory_witness :
  exists r,
    requests (onSent (Some "b"%string) (stateAfter (exchange 0 "q" "ok"))) = [r]
    /\ chatMemory (request_body r) = [{| mem_question := "q"; mem_answer := "ok" |}].
Proof.
  destruct (request_carries_session_memory (stateAfter (exchange 0 "q" "ok"))
              (Some "b"%string))
    as (r & Hreq & _ & _ & _ & _ & Hmem & _).
  - exists (exchange 0 "q" "ok"). vm_compute. reflexivity.
  - vm_compute. reflexivity.
  - exists r. split; [exact Hreq | exact Hmem].
Defined.

Lemma set_now_now x : set_now (now x) x = x.
Proof. destruct x. reflexivity. Qed.

Lemma set_now_twice t t' x : set_now t (set_now t' x) = set_now t x.
Proof. destruct x. reflexivity. Qed.

Lemma passive_idle es : forall x,
  timers x = [] -> requests x = [] -> forallb passive es = true ->
  exists t, run es x = Done (set_now t x).
Proof.
  induction es as [|e es IH]; intros x Ht Hr Hes.
  - exists (now x). simpl. rewrite set_now_now. reflexivity.
  - simpl in Hes. apply andb_true_iff in Hes as [He Hes].
    destruct e; try discriminate; cbn [run step].
    + unfold fetchSettles. rewrite Hr. cbn [find bindO]. apply IH; assumption.
    + rewrite (sleep_idle d x Ht). cbn [bindO].
      destruct (IH (set_now (now x + d) x) Ht Hr Hes) as [t Hrun].
      exists t. rewrite Hrun, set_now_twice. reflexivity.
Qed.

(** X17. A click on New Chat keeps the stored sessions and the sidebar,
    clears the display, leaves no session active and enables the input
    box, from any reachable state, full or loading.  A question sent
    directly after it is accepted and goes out with an empty memory,
    thinking mode off and no session index.  When no timer and no
    request was pending at the click, the same holds however long the
    user waits: the event loop then changes nothing but the clock.
    Timers and requests that are pending at the click are not
    cancelled by it: once they run, a session can be active again. *)
Theorem newChat_starts_without_memory (s : State) (prompt : option string) :
  reachable s ->
  chats (newChat s) = chats s /\ prevPrompts (newChat s) = prevPrompts s
  /\ conversationHistory (newChat s) = [] /\ currentChatIndex (newChat s) = None
  /\ inputDisabled (newChat s) = false
  /\ (exists r,
        requests (onSent prompt (newChat s)) = requests s ++ [r]
        /\ query (request_body r) = userQueryOf prompt s
        /\ chatMemory (request_body r) = []
        /\ body_isThinkingMode (request_body r) = false
        /\ request_currentChatIndex r = None)
  /\ (timers s = [] -> requests s = [] ->
      forall es, forallb passive es = true ->
      exists s1 r,
        run (NewChat :: es) s = Done s1
        /\ chats s1 = chats s /\ prevPrompts s1 = prevPrompts s
        /\ conversationHistory s1 = [] /\ currentChatIndex s1 = None
        /\ inputDisabled s1 = false
        /\ requests (onSent prompt s1) = [r]
        /\ query (request_body r) = userQueryOf prompt s
        /\ chatMemory (request_body r) = []
        /\ body_isThinkingMode (request_body r) = false
        /\ request_currentChatIndex r = None).
Proof.
  intros Hs. apply reachable_Inv in Hs.
  assert (H1 : Inv (newChat s)) by (apply Inv_newChat, Hs).
  repeat (split; [reflexivity|]).
  split.
  - rewrite onSent_sending by (try exact H1; reflexivity).
    exists (requestOf prompt (newChat s)). simpl.
    repeat split; reflexivity.
  - intros Ht Hr es Hes.
    destruct (passive_idle es (newChat s) Ht Hr Hes) as [t Hrun].
    assert (H2 : Inv (set_now t (newChat s))).
    { eapply (Inv_run es); [exact H1 | exact Hrun]. }
    exists (set_now t (newChat s)), (requestOf prompt (set_now t (newChat s))).
    split; [exact Hrun|].
    rewrite onSent_sending by (try exact H2; reflexivity).
    simpl. rewrite Hr.
    repeat split; reflexivity.
Qed.

Lemma newChat_starts_without_memory_witness :
  exists s1 r,
    run [NewChat; Sleep 2000] (stateAfter tenExchanges) = Done s1
    /\ requests (onSent (Some "b"%string) s1) = [r]
    /\ chatMemory (request_body r) = [].
Proof.
  destruct (newChat_starts_without_memory (stateAfter tenExchanges) (Some "b"%string))
    as (_ & _ & _ & _ & _ & _ & Hidle).
  - exists tenExchanges. vm_compute. reflexivity.
  - destruct (Hidle eq_refl eq_refl [Sleep 2000] eq_refl)
      as (s1 & r & Hrun & _ & _ & _ & _ & _ & Hreq & _ & Hmem & _).
    exists s1, r. split; [exact Hrun|]. split; [exact Hreq | exact Hmem].
Defined.

(** ** The only uncaught exception *)

Lemma indexValid_extend cs cs' index :
  chatsExtend cs cs' -> indexValid cs index -> indexValid cs' index.
Proof.
  intros He Hv i Hi. specialize (Hv i Hi).
  destruct (lookup_lt_is_Some_2 cs i Hv) as [c Hc].
  destruct (He i c Hc) as (c' & Hc' & _). eapply lookup_lt_Some. exact Hc'.
Qed.

Lemma timerIndexValid_extend cs cs' t :
  chatsExtend cs cs' -> timerIndexValid cs t -> timerIndexValid cs' t.
Proof.
  unfold timerIndexValid. intros He. destruct (timer_callback t); [exact id|].
  apply indexValid_extend. exact He.
Qed.

Lemma Closures_extend (s s' : State) :
  chatsExtend (chats s) (chats s') ->
  (forall r, r ∈ requests s' -> r ∈ requests s) ->
  (forall t, t ∈ timers s' -> t ∈ timers s) ->
  Closures s -> Closures s'.
Proof.
  intros He Hr Ht [Hcr Hct]. rewrite Forall_forall in Hcr. rewrite Forall_forall in Hct.
  constructor.
  - apply Forall_forall. intros r Hin. eapply indexValid_extend; [exact He|].
    apply Hcr, Hr, Hin.
  - apply Forall_forall. intros t Hin. eapply timerIndexValid_extend; [exact He|].
    apply Hct, Ht, Hin.
Qed.

Lemma wordTimers_indexValid cs c t0 ws : forall id i,
  Forall (timerIndexValid cs) (wordTimers c t0 id i ws).
Proof.
  induction ws as [|w ws IH]; intros id i; simpl; constructor; [exact I | apply IH].
Qed.

Lemma Closures_same (s s' : State) :
  chats s' = chats s -> requests s' = requests s -> timers s' = timers s ->
  Closures s -> Closures s'.
Proof.
  intros Hc Hr Ht [Hcr Hct]. constructor; rewrite Hc; [rewrite Hr | rewrite Ht]; assumption.
Qed.

Lemma Closures_onSent prompt s : Inv s -> Closures s -> Closures (onSent prompt s).
Proof.
  intros HI H. destruct (currentChatIsFull s) eqn:Hfull.
  - unfold onSent. rewrite Hfull. exact H.
  - rewrite onSent_sending by assumption. destruct H as [Hcr Hct]. constructor; simpl.
    + apply Forall_app. split; [exact Hcr|]. constructor; [|constructor].
      exact (inv_index _ HI).
    + constructor.
Qed.

Lemma commitGraph_returns index q g x :
  indexValid (chats x) index -> exists x', commitGraph index q g x = Done x'.
Proof.
  intros Hv. unfold commitGraph, graphUpdater. destruct index as [i|].
  - destruct (lookup_lt_is_Some_2 (chats x) i (Hv i eq_refl)) as [chat Hchat].
    simpl chats. rewrite Hchat. eexists. reflexivity.
  - eexists. reflexivity.
Qed.

Lemma finalize_returns c index q a x :
  indexValid (chats x) index -> exists x', finalize c index q a x = Done x'.
Proof.
  intros Hv. unfold finalize, finalizeUpdater. destruct c; [eexists; reflexivity|].
  destruct index as [i|].
  - destruct (lookup_lt_is_Some_2 (chats x) i (Hv i eq_refl)) as [chat Hchat].
    simpl chats. rewrite Hchat. destruct (memoryLimit <=? _); eexists; reflexivity.
  - destruct (memoryLimit <=? _); eexists; reflexivity.
Qed.

Lemma runCallbacks_returns ts : forall x,
  Forall (timerIndexValid (chats x)) ts -> exists x', runCallbacks ts x = Done x'.
Proof.
  induction ts as [|t ts IH]; intros x Hv; simpl; [eexists; reflexivity|].
  inversion Hv as [|? ? Ht Hts]; subst.
  assert (H1 : exists x1, runCallback (timer_callback t) x = Done x1).
  { unfold timerIndexValid in Ht. destruct (timer_callback t) as [c w|c index q a]; simpl.
    - destruct c; eexists; reflexivity.
    - apply finalize_returns, Ht. }
  destruct H1 as [x1 H1]. rewrite H1. cbn [bindO]. apply IH.
  eapply Forall_impl; [exact Hts|]. simpl. intros u.
  apply timerIndexValid_extend.
  apply (chatsExtend_runCallbacks [t] x x1). simpl. rewrite H1. reflexivity.
Qed.

Lemma stopGeneration_pending s s' :
  stopGeneration s = Done s' ->
  (forall r, r ∈ requests s' -> r ∈ requests s)
  /\ (forall t, t ∈ timers s' -> t ∈ timers s).
Proof.
  unfold stopGeneration, stopUpdater.
  assert (Hab : forall x, (forall r, r ∈ requests (abortCurrent x) -> r ∈ requests x)
                          /\ timers (abortCurrent x) = timers x
                          /\ chats (abortCurrent x) = chats x).
  { intros x. unfold abortCurrent. destruct (abortControllerRef x); simpl; [|auto].
    split; [|auto]. intros r Hr. apply list_elem_of_filter in Hr as [_ Hr]. exact Hr. }
  set (x := clearTimeouts _).
  destruct (Hab x) as (Hr & Ht & Hc).
  assert (Htx : forall t, t ∈ timers x -> t ∈ timers s).
  { subst x. unfold clearTimeouts. simpl. intros t Hin.
    apply list_elem_of_filter in Hin as [_ Hin]. exact Hin. }
  destruct (JS.truthy (JS.trim (resultData s))).
  - destruct (currentChatIndex s) as [i|]; [|discriminate]. simpl chatAt. simpl chats.
    destruct (chats (abortCurrent x) !! i) as [chat|]; [|discriminate].
    cbn [bindO]. intros [= <-]. simpl. rewrite Ht. split; [exact Hr | exact Htx].
  - cbn [bindO]. intros [= <-]. simpl. rewrite Ht. split; [exact Hr | exact Htx].
Qed.

Lemma Closures_step e s s' : Inv s -> Closures s -> step e s = Done s' -> Closures s'.
Proof.
  intros HI H Hstep.
  pose proof (chatsExtend_step e s s' Hstep) as He.
  destruct e; simpl in Hstep.
  - injection Hstep as <-. revert H. apply Closures_same; reflexivity.
  - injection Hstep as <-. apply Closures_onSent; assumption.
  - injection Hstep as <-. unfold handleSend.
    generalize (Closures_onSent None s HI H). apply Closures_same; reflexivity.
  - injection Hstep as <-. unfold handleKeyPress, handleSend.
    destruct (_ && _)%bool; [|exact H].
    generalize (Closures_onSent None s HI H). apply Closures_same; reflexivity.
  - destruct (stopGeneration_pending s s' Hstep) as [Hr Ht].
    eapply Closures_extend; eauto.
  - injection Hstep as <-. revert H. apply Closures_same; reflexivity.
  - revert Hstep He. unfold openChat. destruct (_ || _)%bool; [intros [= <-] _; exact H|].
    destruct (chats s !! Z.to_nat index); [|discriminate].
    intros [= <-] _. revert H. apply Closures_same; reflexivity.
  - injection Hstep as <-. revert H. apply Closures_same; reflexivity.
  - revert Hstep He. unfold fetchSettles.
    destruct (find _ _) as [r|] eqn:Hfind; [|intros [= <-] _; exact H].
    apply find_some in Hfind as [Hin _]. apply list_elem_of_In in Hin.
    pose proof (clo_requests _ H) as Hcr. rewrite Forall_forall in Hcr.
    pose proof (Hcr r Hin) as Hr.
    assert (Hx : Closures (set_requests (filter (fun r => request_id r ≠ id) (requests s)) s)).
    { destruct H as [Hcr' Hct]. constructor; simpl; [|exact Hct].
      apply Forall_filter_keep. exact Hcr'. }
    change (chats s)
      with (chats (set_requests (filter (fun r => request_id r ≠ id) (requests s)) s)) in Hr.
    revert Hx Hr.
    generalize (set_requests (filter (fun r => request_id r ≠ id) (requests s)) s).
    intros x Hx Hr.
    intros Hres He. revert Hres. unfold resume.
    assert (Hcatch : forall q, Closures (catchBlock q x)).
    { intros q. revert Hx. apply Closures_same; reflexivity. }
    destruct o as [|[] message gp]; try (intros [= <-]; apply Hcatch).
    destruct (JS.orNull gp).
    + intros Hc. eapply (Closures_extend x s'); [| | |exact Hx].
      * eapply chatsExtend_commitGraph. exact Hc.
      * revert Hc. unfold commitGraph, graphUpdater.
        destruct (request_currentChatIndex r) as [i|].
        -- simpl chats. destruct (chats x !! i); [|discriminate].
           cbn [bindO]. intros [= <-]. auto.
        -- cbn [bindO]. intros [= <-]. auto.
      * revert Hc. unfold commitGraph, graphUpdater.
        destruct (request_currentChatIndex r) as [i|].
        -- simpl chats. destruct (chats x !! i); [|discriminate].
           cbn [bindO]. intros [= <-]. auto.
        -- cbn [bindO]. intros [= <-]. auto.
    + destruct (JS.orNull message); intros [= <-]; [|apply Hcatch].
      unfold playback. rewrite delayParaLoop_eq. unfold setTimeout.
      destruct Hx as [Hcr' Hct]. constructor; simpl; [exact Hcr'|].
      rewrite <- app_assoc. apply Forall_app. split; [exact Hct|].
      apply Forall_app. split.
      * apply wordTimers_indexValid.
      * constructor; [|constructor]. exact Hr.
  - revert Hstep. unfold sleep. intros Hrun.
    destruct (runCallbacks_loop _ _ _ Hrun) as [Hreq Htim]. simpl in Hreq, Htim.
    eapply (Closures_extend s s'); [exact He | | | exact H].
    + rewrite Hreq. auto.
    + rewrite Htim. intros t Ht. apply list_elem_of_filter in Ht as [_ Ht]. exact Ht.
Qed.

Lemma Closures_run es : forall s s',
  Inv s -> Closures s -> run es s = Done s' -> Closures s'.
Proof.
  induction es as [|e es IH]; intros s s' HI H; simpl.
  - intros [= <-]. exact H.
  - destruct (step e s) as [s1|] eqn:Hstep; [|discriminate]. simpl.
    apply IH; [eapply Inv_step | eapply Closures_step]; eauto.
Qed.

Lemma reachable_Closures s : reachable s -> Closures s.
Proof.
  intros [es Hes]. eapply Closures_run; [apply Inv_init | | exact Hes].
  constructor; constructor.
Qed.

Lemma openChat_returns index s : exists s', openChat index s = Done s'.
Proof.
  unfold openChat.
  destruct ((index <? 0) || (Z.of_nat (length (chats s)) <=? index))%Z eqn:Hguard;
    [eexists; reflexivity|].
  apply orb_false_iff in Hguard as [H0 H1].
  apply Z.ltb_ge in H0. apply Z.leb_gt in H1.
  destruct (lookup_lt_is_Some_2 (chats s) (Z.to_nat index)) as [c Hc]; [lia|].
  rewrite Hc. eexists. reflexivity.
Qed.

(** X18. From a state reached from the initial page, an event ends in an
    uncaught exception exactly when it is a click on the stop button while
    no session is active and the text shown so far is not blank.  Every
    other event runs to completion: in particular the timer callbacks and
    the fetch continuations, whose captured session index always points to
    an existing session. *)
Theorem only_stop_without_session_throws (s : State) (e : Event) :
  reachable s ->
  step e s = Threw
  <-> e = StopGeneration
      /\ currentChatIndex s = None
      /\ JS.truthy (JS.trim (resultData s)) = true.
Proof.
  intros Hs. pose proof (reachable_Inv s Hs) as HI.
  pose proof (reachable_Closures s Hs) as HC. split.
  - destruct e; simpl; try discriminate.
    + unfold stopGeneration, stopUpdater.
      destruct (JS.truthy (JS.trim (resultData s))); [|discriminate].
      destruct (currentChatIndex s) as [i|] eqn:Hidx; [|auto].
      simpl chatAt. simpl chats.
      destruct (abortCurrent_requests (clearTimeouts (setLoading false (setIsStopped true s))))
        as [rs ->].
      simpl chats.
      destruct (lookup_lt_is_Some_2 (chats s) i (inv_index _ HI i Hidx)) as [c ->].
      discriminate.
    + destruct (openChat_returns index s) as [s' ->]. discriminate.
    + unfold fetchSettles. destruct (find _ _) as [r|] eqn:Hfind; [|discriminate].
      apply find_some in Hfind as [Hin _]. apply list_elem_of_In in Hin.
      pose proof (clo_requests _ HC) as Hcr. rewrite Forall_forall in Hcr.
      pose proof (Hcr r Hin) as Hr. unfold resume.
      destruct o as [|[] message gp]; try discriminate.
      destruct (JS.orNull gp); [|destruct (JS.orNull message); discriminate].
      destruct (commitGraph_returns (request_currentChatIndex r) (query (request_body r)) s0
                  (set_requests (filter (fun r => request_id r ≠ id) (requests s)) s) Hr)
        as [s' ->].
      discriminate.
    + unfold sleep.
      destruct (runCallbacks_returns
                  (fireOrder (filter (fun t => timer_due t <= now s + d) (timers s)))
                  (set_now (now s + d)
                     (set_timers (filter (fun t => ¬ timer_due t <= now s + d) (timers s)) s)))
        as [s' ->]; [|discriminate].
      simpl chats. apply Forall_forall. intros t Ht.
      apply fireOrder_elem in Ht. apply list_elem_of_filter in Ht as [_ Ht].
      pose proof (clo_timers _ HC) as Hct. rewrite Forall_forall in Hct. apply Hct, Ht.
  - intros (-> & Hidx & Htext). simpl. unfold stopGeneration, stopUpdater.
    rewrite Htext, Hidx. reflexivity.
Qed.

Lemma only_stop_without_session_throws_witness :
  step StopGeneration (stateAfter (helloWorld ++ [Sleep 0])) = Threw
  <-> StopGeneration = StopGeneration
      /\ currentChatIndex (stateAfter (helloWorld ++ [Sleep 0])) = None
      /\ JS.truthy (JS.trim (resultData (stateAfter (helloWorld ++ [Sleep 0])))) = true.
Proof.
  apply (only_stop_without_session_throws (stateAfter (helloWorld ++ [Sleep 0])) StopGeneration).
  exists (helloWorld ++ [Sleep 0]). vm_compute. reflexivity.
Defined.

(** ** The controls of Main.jsx *)

Lemma onSent_requests prompt s r :
  r ∈ requests (onSent prompt s) ->
  r ∈ requests s \/ query (request_body r) = userQueryOf prompt s.
Proof.
  unfold onSent. destruct (currentChatIsFull s); [auto|].
  destruct (match currentChatIndex s with
            | Some i => option_map memory (chats s !! i)
            | None => Some []
            end) as [m|]; simpl; [|auto].
  intros Hr. apply elem_of_app in Hr as [Hr|Hr]; [auto|].
  apply list_elem_of_singleton in Hr. subst r. right. reflexivity.
Qed.

(** X19. The Enter key sends only a question that is not blank: any
    other key, or Enter over an input that is empty or all white space,
    leaves the state as it is, and a request that a key press adds
    carries the input, which then has a character that is not white
    space. *)
Theorem enter_key_posts_only_non_blank (s : State) (key : string) :
  (key <> "Enter"%string \/ JS.truthy (JS.trim (input s)) = false ->
   handleKeyPress key s = s)
  /\ (forall r, r ∈ requests (handleKeyPress key s) ->
        r ∈ requests s
        \/ (key = "Enter"%string
            /\ query (request_body r) = input s
            /\ JS.truthy (JS.trim (input s)) = true)).
Proof.
  unfold handleKeyPress. destruct (String.eqb_spec key "Enter") as [->|Hkey].
  - destruct (JS.truthy (JS.trim (input s))) eqn:Hblank; simpl.
    + split; [intros [H|H]; [congruence | discriminate]|].
      intros r Hr. unfold handleSend in Hr. simpl in Hr.
      apply onSent_requests in Hr as [Hr|Hr]; [left; exact Hr|].
      right. repeat split; assumption.
    + split; [reflexivity|]. intros r Hr. left. exact Hr.
  - simpl. split; [reflexivity|]. intros r Hr. left. exact Hr.
Qed.

Lemma enter_key_posts_only_non_blank_witness :
  handleKeyPress "Enter" (stateAfter [SetInput " "]) = stateAfter [SetInput " "].
Proof.
  apply (enter_key_posts_only_non_blank (stateAfter [SetInput " "]) "Enter").
  right. vm_compute. reflexivity.
Defined.

(** X20. While the active session of a reachable state is full, the page
    offers no way to ask: the input box is disabled, the send icon is not
    rendered, so neither the send click nor a key press can happen; once
    loading is over the New Chat button is rendered in place of the send
    icon, and outside thinking mode the placeholder tells that the memory
    is full. *)
Theorem full_session_offers_only_new_chat (s : State) (c : Chat) :
  reachable s -> activeChat s = Some c -> isMemoryFull c = true ->
  inputDisabled s = true
  /\ sendIconShown s = false
  /\ uiEnabled HandleSend s = false
  /\ (forall key, uiEnabled (HandleKeyPress key) s = false)
  /\ (forall v, uiEnabled (SetInput v) s = false)
  /\ (loading s = false -> newChatButtonShown s = true)
  /\ (isThinkingMode s = false -> placeholder s = "Memory full - Start new chat"%string).
Proof.
  intros Hs Hc Hfull.
  pose proof (inv_sync _ (reachable_Inv s Hs) c Hc Hfull) as Hflag.
  unfold uiEnabled, inputDisabled, sendIconShown, newChatButtonShown, placeholder.
  rewrite Hflag. destruct (loading s); simpl.
  - repeat split; try reflexivity; try discriminate. intros ->. reflexivity.
  - repeat split; try reflexivity. intros ->. reflexivity.
Qed.

Lemma full_session_offers_only_new_chat_witness :
  inputDisabled (stateAfter tenExchanges) = true
  /\ newChatButtonShown (stateAfter tenExchanges) = true
  /\ placeholder (stateAfter tenExchanges) = "Memory full - Start new chat"%string.
Proof.
  destruct (full_session_offers_only_new_chat (stateAfter tenExchanges)
              {| title := "q";
                 messages :=
                   repeat {| question := "q"; answer := Some "ok"%string; graph_path := None |} 10;
                 memory := repeat {| mem_question := "q"; mem_answer := "ok" |} 10;
                 isMemoryFull := true |})
    as (H1 & _ & _ & _ & _ & H6 & H7).
  - exists tenExchanges. vm_compute. reflexivity.
  - vm_compute. reflexivity.
  - reflexivity.
  - split; [exact H1|]. split; [apply H6 | apply H7]; vm_compute; reflexivity.
Defined.
